(** * water-sql: the STORET parser and exporter (src/parse_state_data.py,
      src/parse_washington_data.py)

    A shallow embedding of [StateDataParser] (and of the station record built
    by [WashingtonDataParser]) together with the properties of the record
    reader, the column resolution, the three entity extractors and the run
    controller.

    Conventions of the embedding:
    - a Python [str] read from a latin-1 file is a [string]: one [ascii] per
      byte, which is exactly what the latin-1 codec produces;
    - a row is a [list string], indexed the Python way (negative indices count
      from the end, an index out of range raises [IndexError]);
    - a Python [dict] whose iteration order is observed ([param_dict],
      [station_dict]) is an association list in insertion order; [header_map],
      which is only ever looked up, is a [gmap];
    - code that can raise returns a [result];
    - the file system seen by [run] and [main] is a finite map from paths to
      file contents, threaded explicitly together with standard output. *)

From Stdlib Require Import ZArith Ascii String.
From stdpp Require Import base option list strings gmap.

Local Open Scope Z_scope.

(** ** Exceptions *)

Inductive exn : Type :=
  | IndexError.

Inductive result (A : Type) : Type :=
  | Ok (a : A)
  | Raise (e : exn).

Arguments Ok {A} a.
Arguments Raise {A} e.

#[global] Instance result_ret : MRet result := fun _ a => Ok a.

#[global] Instance result_bind : MBind result := fun _ _ k r =>
  match r with
  | Ok a => k a
  | Raise e => Raise e
  end.

(** ** Strings *)

Definition TAB : ascii := ascii_of_nat 9.
Definition LF : ascii := ascii_of_nat 10.

(** [str.isspace] on the code points a latin-1 file can contain. *)
Definition isspace (c : ascii) : bool :=
  let n := nat_of_ascii c in
  ((9 <=? n)%nat && (n <=? 13)%nat)
  || ((28 <=? n)%nat && (n <=? 32)%nat)
  || (n =? 133)%nat
  || (n =? 160)%nat.

Fixpoint lstrip (s : string) : string :=
  match s with
  | EmptyString => EmptyString
  | String c s' => if isspace c then lstrip s' else s
  end.

Fixpoint rstrip (s : string) : string :=
  match s with
  | EmptyString => EmptyString
  | String c s' =>
      match rstrip s' with
      | EmptyString => if isspace c then EmptyString else String c EmptyString
      | r => String c r
      end
  end.

(** [s.strip()] *)
Definition strip (s : string) : string := rstrip (lstrip s).

(** [s.split(sep)] for a one-character separator: never the empty list. *)
Fixpoint split (sep : ascii) (s : string) : list string :=
  match s with
  | EmptyString => [EmptyString]
  | String c s' =>
      if Ascii.eqb c sep then EmptyString :: split sep s'
      else match split sep s' with
           | [] => [String c EmptyString]
           | p :: ps => String c p :: ps
           end
  end.

(** Truth value of a string: [bool(s)]. *)
Definition truthy (s : string) : bool :=
  match s with
  | EmptyString => false
  | String _ _ => true
  end.

(** [s.startswith(p)] *)
Definition startswith (s p : string) : bool := String.prefix p s.

(** ** Rows *)

Definition row : Type := list string.

Definition len {A : Type} (l : list A) : Z := Z.of_nat (length l).

(** [r[i]] *)
Definition getitem (r : row) (i : Z) : result string :=
  let j := if i <? 0 then len r + i else i in
  if (j <? 0) || (len r <=? j) then Raise IndexError
  else match r !! Z.to_nat j with
       | Some x => Ok x
       | None => Raise IndexError
       end.

(** ** The header map

    [{h: i for i, h in enumerate(headers)}]: a later column of the same name
    overwrites an earlier one. *)

Fixpoint header_map_from (i : Z) (headers : list string) (m : gmap string Z)
  : gmap string Z :=
  match headers with
  | [] => m
  | h :: hs => header_map_from (i + 1) hs (<[h := i]> m)
  end.

Definition make_header_map (headers : list string) : gmap string Z :=
  header_map_from 0 headers ∅.

(** [m.get(k, d)] *)
Definition dict_get (m : gmap string Z) (k : string) (d : Z) : Z :=
  default d (m !! k).

(** ** Column resolution

    The expression repeated for every named field of a station or result
    record:
    [row[header_map.get(name, d)].strip()
       if name in header_map and len(row) > header_map[name] else otherwise]
    where [otherwise] is [''] everywhere except for the state of a station in
    [WashingtonDataParser]. *)

Definition resolve_field_else (r : row) (header_map : gmap string Z)
    (name : string) (d : Z) (otherwise : string) : result string :=
  match header_map !! name with
  | Some i =>
      if i <? len r
      then x ← getitem r (dict_get header_map name d); Ok (strip x)
      else Ok otherwise
  | None => Ok otherwise
  end.

Definition resolve_field (r : row) (header_map : gmap string Z)
    (name : string) (d : Z) : result string :=
  resolve_field_else r header_map name d EmptyString.

(** The station id of a station row, resolved without the length test:
    [row[header_map.get('Station', 1)].strip() if 'Station' in header_map
       else row[1].strip()] *)

Definition resolve_station_id (r : row) (header_map : gmap string Z)
  : result string :=
  match header_map !! "Station"%string with
  | Some _ => x ← getitem r (dict_get header_map "Station" 1); Ok (strip x)
  | None => x ← getitem r 1; Ok (strip x)
  end.

(** ** Standard output

    Three kinds of printed lines are recorded and no other: the warning of the
    reader for a file that cannot be read, the error of [main] for a missing
    data directory, and the notice of [run] that parsing is skipped. All the
    other lines that the script prints are left out of the model: the
    progress and count lines of the extractors, their "No ... files found"
    warnings, the "Wrote ..." lines of the writers and the summary. A list of
    messages therefore tells which lines of these three kinds were printed,
    not everything that was printed. *)

Inductive message : Type :=
  | WarnCouldNotRead (filepath err : string)
  | ErrDataDirNotFound (dir : string)
  | NoteSkippingParsing (output_dir : string).

(** ** The record reader *)

(** What [open(filepath, 'r', encoding='latin-1')] followed by
    [f.readlines()] gives: an exception, or the lines of the file. *)
Inductive file_read : Type :=
  | Unreadable (err : string)
  | Lines (lines : list string).

Record source_file : Type := {
  sf_path : string;
  sf_name : string;
  sf_read : file_read
}.

(** The loop over [lines[2:]]. *)
Fixpoint data_rows_loop (lines : list string) (data_rows : list row)
  : list row :=
  match lines with
  | [] => data_rows
  | line :: rest =>
      if truthy (strip line)
      then data_rows_loop rest (data_rows ++ [map strip (split TAB line)])
      else data_rows_loop rest data_rows
  end.

Definition parse_tab_delimited_file (f : source_file)
  : list message * (list string * list row) :=
  match sf_read f with
  | Unreadable e => ([WarnCouldNotRead (sf_path f) e], ([], []))
  | Lines lines =>
      if len lines <? 2 then ([], ([], []))
      else match lines with
           | [] => ([], ([], []))
           | line0 :: _ =>
               ([], (map strip (split TAB line0),
                     data_rows_loop (drop 2 lines) []))
           end
  end.

(** ** Insertion-ordered dictionaries *)

Definition odict (V : Type) : Type := list (string * V).

Fixpoint od_lookup {V : Type} (k : string) (d : odict V) : option V :=
  match d with
  | [] => None
  | (k', v) :: d' => if decide (k = k') then Some v else od_lookup k d'
  end.

(** [k in d] *)
Definition od_mem {V : Type} (k : string) (d : odict V) : bool :=
  match od_lookup k d with
  | Some _ => true
  | None => false
  end.

(** [d[k] = v]: an existing key keeps its place, a new one goes last. *)
Fixpoint od_set {V : Type} (k : string) (v : V) (d : odict V) : odict V :=
  match d with
  | [] => [(k, v)]
  | (k', v') :: d' =>
      if decide (k = k') then (k', v) :: d' else (k', v') :: od_set k v d'
  end.

Definition od_keys {V : Type} (d : odict V) : list string := map fst d.

(** [list(d.values())] *)
Definition od_values {V : Type} (d : odict V) : list V := map snd d.

(** ** Records *)

Record parameter : Type := {
  code : string;
  short_name : string;
  long_name : string
}.

Record station : Type := {
  agency : string;
  station_id : string;
  station_name : string;
  agency_name : string;
  state : string;
  county : string;
  latitude : string;
  longitude : string;
  huc : string;
  station_type : string;
  description : string
}.

Record measurement : Type := {
  r_agency : string;
  r_station_id : string;
  r_param_code : string;
  r_start_date : string;
  r_start_time : string;
  r_result_value : string;
  r_huc : string;
  r_sample_depth : string
}.

(** [for x in l: s = body(s, x)], stopping at the first exception. *)
Fixpoint for_each {S A : Type} (body : S -> A -> result S) (l : list A)
    (s : S) : result S :=
  match l with
  | [] => Ok s
  | x :: xs => s' ← body s x; for_each body xs s'
  end.

(** ** Parameter extraction: the body of [for row in rows] *)

Definition inventory_row (param_dict : odict parameter) (r : row)
  : result (odict parameter) :=
  if 3 <=? len r then
    c ← getitem r 0;
    let code := strip c in
    short_name ← (if 1 <? len r then x ← getitem r 1; Ok (strip x)
                  else Ok EmptyString);
    long_name ← (if 2 <? len r then x ← getitem r 2; Ok (strip x)
                 else Ok EmptyString);
    if negb (truthy code) || bool_decide (code = "Code"%string)
       || startswith code "---"
    then Ok param_dict
    else if negb (od_mem code param_dict)
    then Ok (od_set code {| code := code; short_name := short_name;
                            long_name := long_name |} param_dict)
    else Ok param_dict
  else Ok param_dict.

(** ** Station extraction: the body of [for row in rows]

    [state_field] is the expression of the ['state'] entry, the only place
    where the two parsers differ. *)

Definition station_row (state_field : row -> gmap string Z -> result string)
    (header_map : gmap string Z) (station_dict : odict station) (r : row)
  : result (odict station) :=
  if len r <? 2 then Ok station_dict
  else
    station_id ← resolve_station_id r header_map;
    if negb (truthy station_id) || od_mem station_id station_dict
    then Ok station_dict
    else
      agency ← resolve_field r header_map "Agency" 0;
      station_name ← resolve_field r header_map "Station Name" 2;
      agency_name ← resolve_field r header_map "Agency Name" 3;
      state ← state_field r header_map;
      county ← resolve_field r header_map "County Name" 5;
      latitude ← resolve_field r header_map "Latitude" 6;
      longitude ← resolve_field r header_map "Longitude" 7;
      huc ← resolve_field r header_map "HUC" 8;
      station_type ← resolve_field r header_map "Station Type" (-4);
      description ← (if 0 <? len r then x ← getitem r (-1); Ok (strip x)
                     else Ok EmptyString);
      Ok (od_set station_id
            {| agency := agency; station_id := station_id;
               station_name := station_name; agency_name := agency_name;
               state := state; county := county; latitude := latitude;
               longitude := longitude; huc := huc;
               station_type := station_type; description := description |}
            station_dict).

(** [StateDataParser]: ['state': self.state_name] *)
Definition state_field_configured (state_name : string)
  : row -> gmap string Z -> result string :=
  fun _ _ => Ok state_name.

(** [WashingtonDataParser]: the [State Name] column, else ['Washington'] *)
Definition state_field_washington : row -> gmap string Z -> result string :=
  fun r header_map =>
    resolve_field_else r header_map "State Name" 4 "Washington".

(** ** Result extraction: the body of [for row in rows] *)

Definition result_row (header_map : gmap string Z)
    (results : list measurement) (r : row) : result (list measurement) :=
  if len r <? 10 then Ok results
  else
    agency ← resolve_field r header_map "Agency" 0;
    station_id ← resolve_field r header_map "Station" 1;
    param_code ← resolve_field r header_map "Param" 11;
    start_date ← resolve_field r header_map "Start Date" 12;
    start_time ← resolve_field r header_map "Start Time" 13;
    result_value ← resolve_field r header_map "Result Value" 8;
    huc ← resolve_field r header_map "HUC" 10;
    sample_depth ← resolve_field r header_map "Sample Depth" 16;
    Ok (results ++
        [{| r_agency := agency; r_station_id := station_id;
            r_param_code := param_code; r_start_date := start_date;
            r_start_time := start_time; r_result_value := result_value;
            r_huc := huc; r_sample_depth := sample_depth |}]).

(** ** The parser object *)

Record parser : Type := {
  data_dir : string;
  state_abbr : string;
  state_name : string;
  parameters : list parameter;
  stations : list station;
  results : list measurement
}.

Definition with_parameters (p : parser) (ps : list parameter) : parser :=
  {| data_dir := data_dir p; state_abbr := state_abbr p;
     state_name := state_name p; parameters := ps;
     stations := stations p; results := results p |}.

Definition with_stations (p : parser) (ss : list station) : parser :=
  {| data_dir := data_dir p; state_abbr := state_abbr p;
     state_name := state_name p; parameters := parameters p;
     stations := ss; results := results p |}.

Definition with_results (p : parser) (rs : list measurement) : parser :=
  {| data_dir := data_dir p; state_abbr := state_abbr p;
     state_name := state_name p; parameters := parameters p;
     stations := stations p; results := rs |}.

(** ** Files written by the exporter

    The two scripts are fixed templates; a script is represented by the values
    that fill the holes of its template, a delimited file by the records
    handed to [csv.DictWriter]. *)

Inductive content : Type :=
  | ParametersCsv (ps : list parameter)
  | StationsCsv (ss : list station)
  | ResultsCsv (rs : list measurement)
  | SchemaSql (state_name : string)
  | ImportScript (state_name db_name : string)
  | Text (s : string).

Record world : Type := {
  files : gmap string content;
  dirs : gset string;
  executable : gset string;
  stdout : list message
}.

(** [Path(dir) / name] *)
Definition join (dir name : string) : string := dir +:+ "/" +:+ name.

(** [path.exists()] *)
Definition path_exists (w : world) (path : string) : bool :=
  bool_decide (is_Some (files w !! path)) || bool_decide (path ∈ dirs w).

Definition print (m : message) (w : world) : world :=
  {| files := files w; dirs := dirs w; executable := executable w;
     stdout := stdout w ++ [m] |}.

Definition print_all (ms : list message) (w : world) : world :=
  {| files := files w; dirs := dirs w; executable := executable w;
     stdout := stdout w ++ ms |}.

(** [path.mkdir(exist_ok=True, parents=True)], taken to succeed. *)
Definition mkdir (path : string) (w : world) : world :=
  {| files := files w; dirs := {[path]} ∪ dirs w;
     executable := executable w; stdout := stdout w |}.

(** [with open(path, 'w') as f: f.write(c)], taken to succeed. *)
Definition write_file (path : string) (c : content) (w : world) : world :=
  {| files := <[path := c]> (files w); dirs := dirs w;
     executable := executable w; stdout := stdout w |}.

(** [path.chmod(0o755)] *)
Definition chmod_755 (path : string) (w : world) : world :=
  {| files := files w; dirs := dirs w;
     executable := {[path]} ∪ executable w; stdout := stdout w |}.

Definition replace_char (a b : ascii) (s : string) : string :=
  string_of_list_ascii
    (map (fun c => if Ascii.eqb c a then b else c) (list_ascii_of_string s)).

Record args : Type := {
  arg_data_dir : string;
  arg_state_abbr : string;
  arg_state_name : string;
  arg_output : string
}.

(** How the process ends. *)
Inductive outcome : Type :=
  | Returned
  | Exit (status : Z)
  | Uncaught (e : exn).

(** ** A sample archive

    One inventory file and one result file of a county of Washington, and the
    library functions restricted to what the sample needs. *)

(** A line of a tab-delimited file. *)
Fixpoint tsv_line (fields : list string) : string :=
  match fields with
  | [] => String LF EmptyString
  | [x] => x +:+ String LF EmptyString
  | x :: rest => x +:+ String TAB (tsv_line rest)
  end.

Definition sample_inventory_file : source_file :=
  {| sf_path := "data/Washington/WA_Adams_inv.txt";
     sf_name := "WA_Adams_inv.txt";
     sf_read :=
       Lines [tsv_line ["Code"; "Short Name"; "Long Name"];
              tsv_line ["-----"; "----------"; "---------"];
              tsv_line ["00010"; "Temp"; "Water Temperature"];
              tsv_line ["00010"; "T"; "Temperature (dup)"];
              tsv_line ["00300"; "DO"]] |}.

Definition sample_result_file : source_file :=
  {| sf_path := "data/Washington/WA_Adams/WA_Adams_res_1.txt";
     sf_name := "WA_Adams_res_1.txt";
     sf_read :=
       Lines [tsv_line ["Agency"; "Station"; "c2"; "c3"; "c4"; "c5"; "c6";
                        "c7"; "Result Value"; "c9"; "HUC"; "Param";
                        "Start Date"; "Start Time"];
              tsv_line ["------"];
              tsv_line ["21WA"; "S1"; "c2"; "c3"; "c4"; "c5"; "c6"; "c7";
                        "7.5"; "c9"; "17110012"; "00010"; "1990-05-01";
                        "0930"];
              tsv_line ["21WA"; "S1"; "c2"; "c3"; "c4"; "c5"; "c6"; "c7";
                        "7.5"]] |}.

Definition sample_glob (dir pattern : string) : list source_file :=
  if bool_decide (pattern = "WA_*_inv.txt"%string)
  then [sample_inventory_file]
  else if bool_decide (pattern = "WA_*/WA_*_res_*.txt"%string)
  then [sample_result_file]
  else [].

Definition sample_re_match_group1 (pattern s : string) : option string :=
  if bool_decide (s = "WA_Adams_inv.txt"%string) then Some "Adams"%string
  else None.

Definition sample_str (s : string) : string := s.

Definition sample_parser : parser :=
  {| data_dir := "data/Washington"; state_abbr := "WA";
     state_name := "Washington"; parameters := []; stations := [];
     results := [] |}.

Definition sample_args : args :=
  {| arg_data_dir := "data"; arg_state_abbr := "WA";
     arg_state_name := "Washington"; arg_output := "output" |}.

Definition empty_world : world :=
  {| files := ∅; dirs := ∅; executable := ∅; stdout := [] |}.

(** A world in which the input directory and the three delimited files
    exist, [parameters.csv] with a row added by hand. *)
Definition exported_world : world :=
  {| files :=
       <["output/parameters.csv"%string :=
           Text "code,short_name,long_name / BOGUS,injected,row"]>
         (<["output/stations.csv"%string := StationsCsv []]>
            (<["output/results.csv"%string := ResultsCsv []]> ∅));
     dirs := {["data/Washington"%string]} ∪ {["output"%string]};
     executable := ∅; stdout := [] |}.

Section Parser.

(** Library functions and the input side of the file system. *)
Variable str_upper : string -> string.
Variable str_lower : string -> string.
Variable str_capitalize : string -> string.
(** [re.match(pattern, s, re.IGNORECASE)], reduced to its group 1. *)
Variable re_match_group1 : string -> string -> option string.
(** [list(Path(dir).glob(pattern))] together with what reading each of the
    files gives. *)
Variable glob : string -> string -> list source_file.

(** [StateDataParser.__init__] *)
Definition init (data_dir state_abbr state_name : string) : parser :=
  {| data_dir := data_dir; state_abbr := str_upper state_abbr;
     state_name := state_name; parameters := []; stations := [];
     results := [] |}.

Definition extract_county_name (p : parser) (filename : string)
  : option string :=
  match re_match_group1 (state_abbr p +:+ "_(.+?)_inv\.txt") filename with
  | Some g => Some (replace_char "_" " " g)
  | None => None
  end.

(** The body of [for inv_file in inv_files]. *)
Definition inventory_file (p : parser)
    (st : odict parameter * list message) (f : source_file)
  : result (odict parameter * list message) :=
  match extract_county_name p (sf_name f) with
  | None => Ok st
  | Some county_name =>
      if negb (truthy county_name) then Ok st
      else
        let '(warnings, (headers, rows)) := parse_tab_delimited_file f in
        let out := st.2 ++ warnings in
        match headers with
        | [] => Ok (st.1, out)
        | _ :: _ =>
            param_dict ← for_each inventory_row rows st.1;
            Ok (param_dict, out)
        end
  end.

(** Of what the three extractors print, only the warnings of the reader are
    recorded in [out]: the announcement, the "Found n ... files" line, the
    "Warning: No ... files found" line of the early return and the final count
    are not. *)
Definition parse_inventory_files (p : parser) (out : list message)
  : result (parser * list message) :=
  match glob (data_dir p) (state_abbr p +:+ "_*_inv.txt") with
  | [] => Ok (p, out)
  | inv_files =>
      st ← for_each (inventory_file p) inv_files ([], out);
      Ok (with_parameters p (od_values st.1), st.2)
  end.

(** The body of [for sta_file in sta_files]. *)
Definition station_file
    (state_field : row -> gmap string Z -> result string)
    (st : odict station * list message) (f : source_file)
  : result (odict station * list message) :=
  let '(warnings, (headers, rows)) := parse_tab_delimited_file f in
  let out := st.2 ++ warnings in
  match headers with
  | [] => Ok (st.1, out)
  | _ :: _ =>
      let header_map := make_header_map headers in
      station_dict ← for_each (station_row state_field header_map) rows st.1;
      Ok (station_dict, out)
  end.

Definition station_pattern (p : parser) : string :=
  state_abbr p +:+ "_*/" +:+ state_abbr p +:+ "_*_sta_*.txt".

Definition parse_station_files (p : parser) (out : list message)
  : result (parser * list message) :=
  match glob (data_dir p) (station_pattern p) with
  | [] => Ok (p, out)
  | sta_files =>
      st ← for_each (station_file (state_field_configured (state_name p)))
             sta_files ([], out);
      Ok (with_stations p (od_values st.1), st.2)
  end.

(** The body of [for res_file in res_files]. *)
Definition result_file (st : list measurement * list message)
    (f : source_file) : result (list measurement * list message) :=
  let '(warnings, (headers, rows)) := parse_tab_delimited_file f in
  let out := st.2 ++ warnings in
  match headers with
  | [] => Ok (st.1, out)
  | _ :: _ =>
      let header_map := make_header_map headers in
      rs ← for_each (result_row header_map) rows st.1;
      Ok (rs, out)
  end.

Definition result_pattern (p : parser) : string :=
  state_abbr p +:+ "_*/" +:+ state_abbr p +:+ "_*_res_*.txt".

Definition parse_result_files (p : parser) (out : list message)
  : result (parser * list message) :=
  match glob (data_dir p) (result_pattern p) with
  | [] => Ok (p, out)
  | res_files =>
      st ← for_each result_file res_files (results p, out);
      Ok (with_results p st.1, st.2)
  end.

(** *** The artifact writer

    The line that each writer prints when it is done ("Wrote ... to ...") is
    not recorded. *)

Definition write_csv_files (p : parser) (output_dir : string) (w : world)
  : world :=
  let w := mkdir output_dir w in
  let w := write_file (join output_dir "parameters.csv")
             (ParametersCsv (parameters p)) w in
  let w := write_file (join output_dir "stations.csv")
             (StationsCsv (stations p)) w in
  write_file (join output_dir "results.csv") (ResultsCsv (results p)) w.

Definition write_sqlite_schema (p : parser) (output_dir : string)
    (w : world) : world :=
  let w := mkdir output_dir w in
  write_file (join output_dir "schema.sql") (SchemaSql (state_name p)) w.

Definition write_import_script (p : parser) (output_dir : string)
    (db_name : option string) (w : world) : world :=
  let w := mkdir output_dir w in
  let db_name :=
    match db_name with
    | None => str_lower (state_name p) +:+ "_water.db"
    | Some n => n
    end in
  let import_file := join output_dir "import_to_sqlite.sh" in
  let w := write_file import_file (ImportScript (state_name p) db_name) w in
  chmod_755 import_file w.

(** *** The run controller *)

Definition run (p : parser) (output_dir : string) (w : world)
  : result (parser * world) :=
  let param_file := join output_dir "parameters.csv" in
  let station_file := join output_dir "stations.csv" in
  let result_file := join output_dir "results.csv" in
  if path_exists w param_file && path_exists w station_file
     && path_exists w result_file
  then
    let w := print (NoteSkippingParsing output_dir) w in
    let w := write_sqlite_schema p output_dir w in
    let w := write_import_script p output_dir None w in
    Ok (p, w)
  else
    s1 ← parse_inventory_files p [];
    s2 ← parse_station_files s1.1 s1.2;
    s3 ← parse_result_files s2.1 s2.2;
    let p := s3.1 in
    let w := print_all s3.2 w in
    let w := write_csv_files p output_dir w in
    let w := write_sqlite_schema p output_dir w in
    let w := write_import_script p output_dir None w in
    Ok (p, w).

Definition main (a : args) (w : world) : outcome * world :=
  let base_data_dir := arg_data_dir a in
  let actual_data_dir := join base_data_dir
                           (str_capitalize (arg_state_name a)) in
  if negb (path_exists w actual_data_dir)
  then (Exit 1, print (ErrDataDirNotFound actual_data_dir) w)
  else
    let state_parser :=
      init actual_data_dir (arg_state_abbr a) (arg_state_name a) in
    match run state_parser (arg_output a) w with
    | Ok (_, w') => (Returned, w')
    | Raise e => (Uncaught e, w)
    end.


(** ** [WashingtonDataParser]: the extraction

    The class repeats the reader and the three extractors of
    [StateDataParser] for the abbreviation [WA], with three differences: the
    reader lets the exception of [open] escape, the extractors set their
    collection even when no file matches, and the state of a station is read
    from the row. An exception is an [IndexError] of a row or the [OSError]
    of a file. *)

Inductive wa_exn : Type :=
  | WaIndexError
  | WaOSError (err : string).

Inductive wa_result (A : Type) : Type :=
  | WaOk (a : A)
  | WaRaise (e : wa_exn).

#[global] Arguments WaOk {A} a.
#[global] Arguments WaRaise {A} e.

#[global] Instance wa_result_ret : MRet wa_result := fun _ a => WaOk a.

#[global] Instance wa_result_bind : MBind wa_result := fun _ _ k r =>
  match r with
  | WaOk a => k a
  | WaRaise e => WaRaise e
  end.

(** A computation of the shared code inside the Washington parser. *)
Definition wa_lift {A : Type} (r : result A) : wa_result A :=
  match r with
  | Ok a => WaOk a
  | Raise IndexError => WaRaise WaIndexError
  end.

Fixpoint wa_for_each {S A : Type} (body : S -> A -> wa_result S)
    (l : list A) (s : S) : wa_result S :=
  match l with
  | [] => WaOk s
  | x :: xs => s' ← body s x; wa_for_each body xs s'
  end.

(** [WashingtonDataParser.parse_tab_delimited_file] *)
Definition wa_parse_tab_delimited_file (f : source_file)
  : wa_result (list string * list row) :=
  match sf_read f with
  | Unreadable e => WaRaise (WaOSError e)
  | Lines lines =>
      if len lines <? 2 then WaOk ([], [])
      else match lines with
           | [] => WaOk ([], [])
           | line0 :: _ =>
               WaOk (map strip (split TAB line0),
                     data_rows_loop (drop 2 lines) [])
           end
  end.

(** [re.match(pattern, s)], reduced to its group 1. *)
Variable re_match_cs_group1 : string -> string -> option string.

(** [WashingtonDataParser.extract_county_name] *)
Definition wa_extract_county_name (filename : string) : option string :=
  match re_match_cs_group1 "WA_(.+?)_inv\.txt" filename with
  | Some g => Some (replace_char "_" " " g)
  | None => None
  end.

Definition wa_inventory_file (param_dict : odict parameter)
    (f : source_file) : wa_result (odict parameter) :=
  match wa_extract_county_name (sf_name f) with
  | None => WaOk param_dict
  | Some county_name =>
      if negb (truthy county_name) then WaOk param_dict
      else
        hr ← wa_parse_tab_delimited_file f;
        match hr.1 with
        | [] => WaOk param_dict
        | _ :: _ => wa_lift (for_each inventory_row hr.2 param_dict)
        end
  end.

Definition wa_parse_inventory_files (p : parser) : wa_result parser :=
  param_dict ← wa_for_each wa_inventory_file
                  (glob (data_dir p) "WA_*_inv.txt") [];
  WaOk (with_parameters p (od_values param_dict)).

Definition wa_station_file (station_dict : odict station) (f : source_file)
  : wa_result (odict station) :=
  hr ← wa_parse_tab_delimited_file f;
  match hr.1 with
  | [] => WaOk station_dict
  | _ :: _ =>
      wa_lift (for_each (station_row state_field_washington
                           (make_header_map hr.1)) hr.2 station_dict)
  end.

Definition wa_parse_station_files (p : parser) : wa_result parser :=
  station_dict ← wa_for_each wa_station_file
                    (glob (data_dir p) "WA_*/WA_*_sta_*.txt") [];
  WaOk (with_stations p (od_values station_dict)).

Definition wa_result_file (results : list measurement) (f : source_file)
  : wa_result (list measurement) :=
  hr ← wa_parse_tab_delimited_file f;
  match hr.1 with
  | [] => WaOk results
  | _ :: _ =>
      wa_lift (for_each (result_row (make_header_map hr.1)) hr.2 results)
  end.

Definition wa_parse_result_files (p : parser) : wa_result parser :=
  rs ← wa_for_each wa_result_file
          (glob (data_dir p) "WA_*/WA_*_res_*.txt") (results p);
  WaOk (with_results p rs).

(** [WashingtonDataParser.parse_all] *)
Definition wa_parse_all (p : parser) : wa_result parser :=
  p1 ← wa_parse_inventory_files p;
  p2 ← wa_parse_station_files p1;
  wa_parse_result_files p2.

(** * Notions used in the statements *)

(** The rows a file contributes. *)
Definition data_rows (f : source_file) : list row :=
  (parse_tab_delimited_file f).2.2.


(** The parameter an inventory row stands for: a row [code, short_name,
    long_name, ...] with a valid code. *)
Definition inventory_candidate (r : row) : option parameter :=
  match r with
  | c :: s :: l :: _ =>
      if negb (truthy (strip c)) || bool_decide (strip c = "Code"%string)
         || startswith (strip c) "---"
      then None
      else Some {| code := strip c; short_name := strip s;
                   long_name := strip l |}
  | _ => None
  end.

(** No two parameters with one code, no two stations with one id. *)
Definition unique_keys (p : parser) : Prop :=
  NoDup (map code (parameters p)) /\ NoDup (map station_id (stations p)).

(** A dictionary whose keys are distinct and are the natural keys of its
    values. *)
Definition keyed_by {V : Type} (key : V -> string) (d : odict V) : Prop :=
  Forall (fun kv => kv.1 = key kv.2) d /\ NoDup (od_keys d).

(** Sample inputs. *)

Definition row14 : row :=
  ["21WA"; "S1"; "c2"; "c3"; "c4"; "c5"; "c6"; "c7"; "7.5"; "c9"; "17110012";
   "00010"; "1990-05-01"; "0930"]%string.

(** [q] is the parameter of the first row of [rows] that stands for a
    parameter of the code of [q]. *)
Definition first_introduced (rows : list row) (q : parameter) : Prop :=
  exists pre r post,
    rows = pre ++ r :: post /\
    inventory_candidate r = Some q /\
    forall r' q', r' ∈ pre -> inventory_candidate r' = Some q' ->
                  code q' <> code q.

(** What holds of [param_dict] once the rows [rows] have been processed. *)
Definition inventory_inv (rows : list row) (d : odict parameter) : Prop :=
  keyed_by code d /\
  (forall kq, kq ∈ d -> first_introduced rows kq.2) /\
  (forall r q, r ∈ rows -> inventory_candidate r = Some q ->
               code q ∈ od_keys d).

(** The rows that parameter extraction processes in a file: all its data rows
    when a county name can be read off the file name, none otherwise. *)
Definition inventory_rows_of (p : parser) (f : source_file) : list row :=
  match extract_county_name p (sf_name f) with
  | Some county_name => if truthy county_name then data_rows f else []
  | None => []
  end.

(** The number of rows with at least ten fields. *)
Definition count_wide (rows : list row) : nat :=
  length (filter (fun r => 10 <= len r) rows).

Definition sample_station_headers : list string :=
  ["Agency"; "Station"; "Station Name"; "Agency Name"; "State Name"]%string.

Definition sample_station_row : row :=
  ["21WA"; "S1"; "Mill Creek"; "Ecology"; "Oregon"]%string.

(** Every character of the string is white space. *)
Fixpoint all_space (s : string) : bool :=
  match s with
  | EmptyString => true
  | String c s' => isspace c && all_space s'
  end.

(** The string contains the character. *)
Fixpoint has_char (a : ascii) (s : string) : bool :=
  match s with
  | EmptyString => false
  | String c s' => Ascii.eqb c a || has_char a s'
  end.

(** The header a file contributes. *)
Definition header_of (f : source_file) : list string :=
  (parse_tab_delimited_file f).2.1.

(** The position of the last column of the header that has the given name. *)
Fixpoint last_index (name : string) (hs : list string) : option nat :=
  match hs with
  | [] => None
  | h :: t =>
      match last_index name t with
      | Some j => Some (S j)
      | None => if decide (h = name) then Some 0%nat else None
      end
  end.

(** The value of a named column of a row under a header line: the trimmed
    field at the position the header map gives, when the row has it. *)
Definition column (hs : list string) (r : row) (name : string) : string :=
  match make_header_map hs !! name with
  | Some i =>
      if i <? len r then strip (nth (Z.to_nat i) r EmptyString)
      else EmptyString
  | None => EmptyString
  end.

(** The station record that [StateDataParser] builds for a row whose station
    id resolved to [id]. *)
Definition station_of (name : string) (hs : list string) (r : row)
    (id : string) : station :=
  {| agency := column hs r "Agency"; station_id := id;
     station_name := column hs r "Station Name";
     agency_name := column hs r "Agency Name";
     state := name;
     county := column hs r "County Name";
     latitude := column hs r "Latitude";
     longitude := column hs r "Longitude";
     huc := column hs r "HUC";
     station_type := column hs r "Station Type";
     description := strip (nth (length r - 1) r EmptyString) |}.

(** The station id of a row under a header line, when resolving it does not
    raise: the [Station] column if the header has one, the second field
    otherwise. *)
Definition station_id_of (hs : list string) (r : row) : option string :=
  match make_header_map hs !! "Station"%string with
  | Some i =>
      if i <? len r then Some (strip (nth (Z.to_nat i) r EmptyString))
      else None
  | None => Some (strip (nth 1 r EmptyString))
  end.

(** The station a row of a station file stands for: a row of at least two
    fields whose station id resolves to a non-empty string. *)
Definition station_candidate (name : string) (item : list string * row)
  : option station :=
  if len item.2 <? 2 then None
  else match station_id_of item.1 item.2 with
       | Some id =>
           if truthy id then Some (station_of name item.1 item.2 id)
           else None
       | None => None
       end.

(** The rows of a station file, each with the header line of its file. *)
Definition station_items (f : source_file) : list (list string * row) :=
  map (fun r => (header_of f, r)) (data_rows f).

(** First writer wins, in general: [items] are processed in order, [cand]
    tells which value an item stands for, [key] is the natural key. *)

(** [v] is the value of the first item that stands for a value of the key of
    [v]. *)
Definition first_item {A V : Type} (key : V -> string)
    (cand : A -> option V) (items : list A) (v : V) : Prop :=
  exists pre x post,
    items = pre ++ x :: post /\
    cand x = Some v /\
    forall x' v', x' ∈ pre -> cand x' = Some v' -> key v' <> key v.

(** What holds of the dictionary once [items] have been processed. *)
Definition first_writer_inv {A V : Type} (key : V -> string)
    (cand : A -> option V) (items : list A) (d : odict V) : Prop :=
  keyed_by key d /\
  (forall kv, kv ∈ d -> first_item key cand items kv.2) /\
  (forall x v, x ∈ items -> cand x = Some v -> key v ∈ od_keys d).

(** Processing one item. *)
Definition first_writer_step {A V : Type} (key : V -> string)
    (cand : A -> option V) (d : odict V) (x : A) : odict V :=
  match cand x with
  | Some v => if od_mem (key v) d then d else d ++ [(key v, v)]
  | None => d
  end.

Definition sample_station_file : source_file :=
  {| sf_path := "data/Washington/WA_Adams/WA_Adams_sta_1.txt";
     sf_name := "WA_Adams_sta_1.txt";
     sf_read :=
       Lines [tsv_line ["Agency"; "Station"; "Station Name"; "Agency Name";
                        "State Name"; "County Name"];
              tsv_line ["------"];
              tsv_line ["21WA"; "S1"; "Mill Creek"; "Ecology"; "Oregon";
                        "Adams"];
              tsv_line ["21WA"; "S1"; "Mill Creek (dup)"; "Ecology";
                        "Washington"; "Adams"];
              tsv_line ["21WA"; "S2"; "Crab Creek"; "Ecology"; "Washington";
                        "Adams"];
              tsv_line ["21WA"]] |}.

(** The sample archive with a station file. *)
Definition sample_glob_stations (dir pattern : string) : list source_file :=
  if bool_decide (pattern = "WA_*/WA_*_sta_*.txt"%string)
  then [sample_station_file]
  else sample_glob dir pattern.


(** The warning that reading a file prints, if any. *)
Definition read_warnings (f : source_file) : list message :=
  match sf_read f with
  | Unreadable e => [WarnCouldNotRead (sf_path f) e]
  | Lines _ => []
  end.

(** The files that parameter extraction reads: those whose name gives a
    county name. *)
Definition has_county_name (p : parser) (f : source_file) : bool :=
  match extract_county_name p (sf_name f) with
  | Some county_name => truthy county_name
  | None => false
  end.

(** The result record of a row under a header line. *)
Definition measurement_of (hs : list string) (r : row) : measurement :=
  {| r_agency := column hs r "Agency";
     r_station_id := column hs r "Station";
     r_param_code := column hs r "Param";
     r_start_date := column hs r "Start Date";
     r_start_time := column hs r "Start Time";
     r_result_value := column hs r "Result Value";
     r_huc := column hs r "HUC";
     r_sample_depth := column hs r "Sample Depth" |}.

(** The result records of a file: one for each data row of at least ten
    fields, in the order of the rows. *)
Definition measurements_of (f : source_file) : list measurement :=
  map (measurement_of (header_of f))
    (filter (fun r => 10 <= len r) (data_rows f)).

(** The warnings of parameter extraction for a file: those of reading it,
    when it is read at all. *)
Definition inventory_warnings (p : parser) (f : source_file) : list message :=
  if has_county_name p f then read_warnings f else [].

(** Every file of the list can be read. *)
Definition all_readable (files : list source_file) : Prop :=
  forall f, f ∈ files -> exists lines, sf_read f = Lines lines.

(** A world in which only the input directory exists. *)
Definition input_world : world :=
  {| files := ∅; dirs := {["data/Washington"%string]}; executable := ∅;
     stdout := [] |}.

Definition sample_unreadable_file : source_file :=
  {| sf_path := "data/Washington/WA_Adams/WA_Adams_res_2.txt";
     sf_name := "WA_Adams_res_2.txt";
     sf_read := Unreadable "Permission denied" |}.

(** The sample archive with a second result file, which cannot be read. *)
Definition sample_glob_unreadable (dir pattern : string)
  : list source_file :=
  if bool_decide (pattern = "WA_*/WA_*_res_*.txt"%string)
  then [sample_result_file; sample_unreadable_file]
  else sample_glob dir pattern.

(** The number of occurrences of a character in a string. *)
Fixpoint count_char (a : ascii) (s : string) : nat :=
  match s with
  | EmptyString => 0
  | String c s' => (if Ascii.eqb c a then 1 else 0) + count_char a s'
  end.

(** The same file with other first and second lines. *)
Definition with_first_lines (f : source_file) (line0 line1 : string)
  : source_file :=
  {| sf_path := sf_path f; sf_name := sf_name f;
     sf_read :=
       match sf_read f with
       | Lines (_ :: _ :: rest) => Lines (line0 :: line1 :: rest)
       | r => r
       end |}.

(** The invocation of the usage text,
    [parse_state_data.py data/Washington -s WA -n Washington]. *)
Definition documented_usage_args : args :=
  {| arg_data_dir := "data/Washington"; arg_state_abbr := "WA";
     arg_state_name := "Washington"; arg_output := "output" |}.

(** * Properties *)

(** ** Indexing and column resolution *)

Lemma getitem_in_range (r : row) (i : Z) :
  0 <= i < len r -> getitem r i = Ok (nth (Z.to_nat i) r EmptyString).
Proof.
  intros [Hlo Hhi]. unfold getitem.
  destruct (Z.ltb_spec i 0) as [?|_]; [lia|].
  destruct (Z.ltb_spec i 0) as [?|_]; [lia|].
  destruct (Z.leb_spec (len r) i) as [?|_]; [lia|]. simpl.
  destruct (r !! Z.to_nat i) as [x|] eqn:Hx.
  - by rewrite (nth_lookup_Some _ _ _ _ Hx).
  - apply lookup_ge_None in Hx. unfold len in Hhi. lia.
Qed.

Lemma header_map_from_range (hs : list string) (i : Z) (m : gmap string Z)
    (name : string) (j : Z) :
  header_map_from i hs m !! name = Some j ->
  m !! name = Some j \/ i <= j < i + len hs.
Proof.
  revert i m. induction hs as [|h hs IH]; intros i m Hj; simpl in Hj.
  - by left.
  - apply IH in Hj as [Hj|Hj].
    + destruct (decide (h = name)) as [->|Hne].
      * rewrite lookup_insert_eq in Hj. injection Hj as <-.
        right. unfold len. simpl. lia.
      * rewrite lookup_insert_ne in Hj by done. by left.
    + right. unfold len in *. simpl. lia.
Qed.

Lemma make_header_map_range (hs : list string) (name : string) (j : Z) :
  make_header_map hs !! name = Some j -> 0 <= j < len hs.
Proof.
  intros Hj. apply header_map_from_range in Hj as [Hj|Hj]; [|lia].
  by rewrite lookup_empty in Hj.
Qed.

(** The resolver on a header map built from a header line: it never raises,
    and there is no positional tier. *)
Lemma resolve_field_else_eq (r : row) (hs : list string) (name : string)
    (d : Z) (otherwise : string) :
  resolve_field_else r (make_header_map hs) name d otherwise =
  Ok (match make_header_map hs !! name with
      | Some i =>
          if i <? len r then strip (nth (Z.to_nat i) r EmptyString)
          else otherwise
      | None => otherwise
      end).
Proof.
  unfold resolve_field_else, dict_get.
  destruct (make_header_map hs !! name) as [i|] eqn:Hi; [|done].
  apply make_header_map_range in Hi as [Hlo _]. simpl.
  destruct (Z.ltb_spec i (len r)) as [Hlt|_]; [|done].
  by rewrite getitem_in_range by lia.
Qed.

Lemma resolve_field_total (r : row) (hs : list string) (name : string)
    (d : Z) :
  exists x, resolve_field r (make_header_map hs) name d = Ok x.
Proof. unfold resolve_field. rewrite resolve_field_else_eq. eauto. Qed.

(** ** The record reader *)

Lemma split_not_nil (sep : ascii) (s : string) : split sep s <> [].
Proof.
  destruct s as [|c s]; simpl; [done|].
  destruct (Ascii.eqb c sep); [done|]. by destruct (split sep s).
Qed.

Lemma data_rows_loop_eq (lines : list string) (acc : list row) :
  data_rows_loop lines acc =
  acc ++ map (fun line => map strip (split TAB line))
           (filter (fun line => truthy (strip line)) lines).
Proof.
  revert acc. induction lines as [|line rest IH]; intros acc; simpl.
  - by rewrite app_nil_r.
  - rewrite filter_cons. destruct (decide _) as [H|H]; simpl in H.
    + destruct (truthy (strip line)); [|done].
      rewrite IH. by rewrite <- app_assoc.
    + destruct (truthy (strip line)); [by destruct H|]. apply IH.
Qed.

Lemma reader_cases (f : source_file) :
  parse_tab_delimited_file f =
  match sf_read f with
  | Unreadable e => ([WarnCouldNotRead (sf_path f) e], ([], []))
  | Lines (line0 :: _ :: rest) =>
      ([], (map strip (split TAB line0),
            map (fun line => map strip (split TAB line))
              (filter (fun line => truthy (strip line)) rest)))
  | Lines _ => ([], ([], []))
  end.
Proof.
  unfold parse_tab_delimited_file.
  destruct (sf_read f) as [e|[|line0 [|line1 rest]]]; try done.
  unfold len. cbn [length drop].
  destruct (Z.ltb_spec (Z.of_nat (S (S (length rest)))) 2); [lia|].
  by rewrite data_rows_loop_eq.
Qed.

(** An empty header comes with no data rows, so that [if not headers:
    continue] drops nothing. *)
Lemma empty_header_no_rows (f : source_file) :
  (parse_tab_delimited_file f).2.1 = [] -> data_rows f = [].
Proof.
  unfold data_rows. rewrite reader_cases.
  destruct (sf_read f) as [e|[|line0 [|line1 rest]]]; try done.
  simpl. intros H. apply map_eq_nil in H. by apply split_not_nil in H.
Qed.

(** ** Claims about column resolution *)

(** C1 (evaluation at the failing input). The header has no [Param] column
    and the row has fourteen fields, so that the conventional position 11
    holds the value ["00010"]; the resolver gives the empty string and not the
    value at position 11: the default index handed to [header_map.get] is
    never used. *)
Theorem resolve_field_ignores_positional_default :
  make_header_map ["Agency"; "Station"]%string !! "Param"%string = None /\
  len row14 = 14 /\
  getitem row14 11 = Ok "00010"%string /\
  resolve_field row14 (make_header_map ["Agency"; "Station"]%string)
    "Param" 11 = Ok EmptyString.
Proof. by vm_compute. Qed.

(** C2 (evaluation at the failing input). The [Station] column is the fourth
    of the header and the row has two fields: resolving the station id raises
    [IndexError], and so does the processing of that row. *)
Theorem resolve_station_id_raises_on_short_row :
  let header_map :=
    make_header_map ["Agency"; "Station Name"; "County Name"; "Station"]%string
  in
  len ["21WA"; "S1"]%string = 2 /\
  header_map !! "Station"%string = Some 3 /\
  resolve_station_id ["21WA"; "S1"]%string header_map = Raise IndexError /\
  station_row (state_field_configured "Washington") header_map []
    ["21WA"; "S1"]%string = Raise IndexError.
Proof. by vm_compute. Qed.

(** ** Claims about the record reader *)

(** C7 (counterexample). A readable file of one line: the header returned is
    empty, not the first line split on tabs. *)
Lemma reader_one_line_file_has_no_header :
  let f := {| sf_path := "WA_Adams_inv.txt"; sf_name := "WA_Adams_inv.txt";
              sf_read := Lines ["Code"%string] |} in
  (parse_tab_delimited_file f).2.1 <> map strip (split TAB "Code").
Proof. by vm_compute. Qed.

(** C7 (amended). A readable file of at least two lines gives, without any
    warning, the first line split on tabs and trimmed as header and, as data
    rows, the non-blank lines from the third onward, each split on tabs with
    its fields trimmed; the second line has no influence. A readable file of
    fewer than two lines gives an empty header and no rows, without warning.
    A file that cannot be read gives one warning, an empty header and no
    rows. *)
Theorem reader_contract (f : source_file) :
  match sf_read f with
  | Lines (line0 :: line1 :: rest) =>
      parse_tab_delimited_file f =
        ([], (map strip (split TAB line0),
              map (fun line => map strip (split TAB line))
                (filter (fun line => truthy (strip line)) rest)))
      /\ forall line1',
           parse_tab_delimited_file
             {| sf_path := sf_path f; sf_name := sf_name f;
                sf_read := Lines (line0 :: line1' :: rest) |}
           = parse_tab_delimited_file f
  | Lines _ => parse_tab_delimited_file f = ([], ([], []))
  | Unreadable e =>
      parse_tab_delimited_file f =
        ([WarnCouldNotRead (sf_path f) e], ([], []))
  end.
Proof.
  pose proof (reader_cases f) as Hf.
  destruct (sf_read f) as [e|[|line0 [|line1 rest]]] eqn:Hr; try done.
  split; [done|]. intros line1'. rewrite Hf. by rewrite reader_cases.
Qed.

(** ** Insertion-ordered dictionaries *)

Lemma od_mem_true {V : Type} (k : string) (d : odict V) :
  od_mem k d = true <-> k ∈ od_keys d.
Proof.
  unfold od_mem. induction d as [|[k' v] d IH]; simpl.
  - split; [done|]. intros H. by apply elem_of_nil in H.
  - destruct (decide (k = k')) as [->|Hne].
    + split; [|done]. intros _. by left.
    + rewrite IH. split; [by right|].
      intros H. apply elem_of_cons in H as [?|?]; done.
Qed.

Lemma od_mem_false {V : Type} (k : string) (d : odict V) :
  od_mem k d = false <-> k ∉ od_keys d.
Proof.
  rewrite <- od_mem_true. by destruct (od_mem k d).
Qed.

Lemma od_set_fresh {V : Type} (k : string) (v : V) (d : odict V) :
  od_mem k d = false -> od_set k v d = d ++ [(k, v)].
Proof.
  unfold od_mem. induction d as [|[k' v'] d IH]; simpl; [done|].
  destruct (decide (k = k')); [done|]. intros H. by rewrite IH.
Qed.

Lemma keyed_by_nil {V : Type} (key : V -> string) : keyed_by key [].
Proof. split; [constructor|]. unfold od_keys. simpl. constructor. Qed.

Lemma keyed_by_snoc {V : Type} (key : V -> string) (d : odict V) (v : V) :
  keyed_by key d -> od_mem (key v) d = false ->
  keyed_by key (d ++ [(key v, v)]).
Proof.
  intros [Hk Hnd] Hfresh. apply od_mem_false in Hfresh. split.
  - apply Forall_app. split; [done|]. by constructor.
  - unfold od_keys in *. rewrite map_app. simpl.
    apply NoDup_app. split_and!; [done| |apply NoDup_singleton].
    intros x Hx Hx'. apply list_elem_of_singleton in Hx'. by subst.
Qed.

Lemma keyed_by_values {V : Type} (key : V -> string) (d : odict V) :
  keyed_by key d -> NoDup (map key (od_values d)).
Proof.
  intros [Hk Hnd]. unfold od_values, od_keys in *.
  replace (map key (map snd d)) with (map fst d); [done|].
  clear Hnd. induction Hk as [|[k v] d Hkv _ IH]; simpl; [done|].
  simpl in Hkv. by rewrite Hkv, IH.
Qed.

(** ** Parameter extraction *)

Lemma inventory_row_eq (d : odict parameter) (r : row) :
  inventory_row d r =
  Ok (match inventory_candidate r with
      | Some q => if od_mem (code q) d then d else d ++ [(code q, q)]
      | None => d
      end).
Proof.
  unfold inventory_row.
  destruct r as [|c [|s [|l rest]]]; try done.
  assert (Hlen : len (c :: s :: l :: rest) = 3 + len rest)
    by (unfold len; simpl; lia).
  assert (Hrest : 0 <= len rest) by (unfold len; lia).
  destruct (Z.leb_spec 3 (len (c :: s :: l :: rest))) as [_|?]; [|lia].
  destruct (Z.ltb_spec 1 (len (c :: s :: l :: rest))) as [_|?]; [|lia].
  destruct (Z.ltb_spec 2 (len (c :: s :: l :: rest))) as [_|?]; [|lia].
  rewrite !getitem_in_range by lia. simpl.
  destruct (negb (truthy (strip c)) || bool_decide (strip c = "Code"%string)
            || startswith (strip c) "---"); [done|].
  simpl. destruct (od_mem (strip c) d) eqn:Hm; simpl; [done|].
  by rewrite od_set_fresh.
Qed.

Lemma first_introduced_snoc (rows : list row) (r : row) (q : parameter) :
  first_introduced rows q -> first_introduced (rows ++ [r]) q.
Proof.
  intros (pre & r0 & post & -> & Hc & Hpre).
  exists pre, r0, (post ++ [r]). split_and!; [|done|done].
  by rewrite <- app_assoc.
Qed.

Lemma inventory_inv_step (rows : list row) (d : odict parameter) (r : row) :
  inventory_inv rows d ->
  inventory_inv (rows ++ [r])
    (match inventory_candidate r with
     | Some q => if od_mem (code q) d then d else d ++ [(code q, q)]
     | None => d
     end).
Proof.
  intros (Hk & Hfirst & Hall).
  destruct (inventory_candidate r) as [q|] eqn:Hq;
    [destruct (od_mem (code q) d) eqn:Hm|].
  - split_and!; [done| |].
    + intros kq Hin. by apply first_introduced_snoc, Hfirst.
    + intros r' q' Hin Hc. apply elem_of_app in Hin as [Hin|Hin]; [eauto|].
      apply list_elem_of_singleton in Hin as ->.
      rewrite Hq in Hc. injection Hc as <-. by apply od_mem_true.
  - split_and!.
    + by apply keyed_by_snoc.
    + intros kq Hin. apply elem_of_app in Hin as [Hin|Hin].
      * by apply first_introduced_snoc, Hfirst.
      * apply list_elem_of_singleton in Hin as ->. simpl.
        exists rows, r, []. split_and!; [done|done|].
        intros r' q' Hin' Hc' Heq. apply od_mem_false in Hm. apply Hm.
        rewrite <- Heq. eauto.
    + intros r' q' Hin Hc. unfold od_keys. rewrite map_app.
      apply elem_of_app. apply elem_of_app in Hin as [Hin|Hin].
      * left. eapply Hall; eauto.
      * apply list_elem_of_singleton in Hin as ->.
        rewrite Hq in Hc. injection Hc as <-. right. simpl. by left.
  - split_and!; [done| |].
    + intros kq Hin. by apply first_introduced_snoc, Hfirst.
    + intros r' q' Hin Hc. apply elem_of_app in Hin as [Hin|Hin]; [eauto|].
      apply list_elem_of_singleton in Hin as ->. congruence.
Qed.

Lemma for_each_inventory_row (rows0 rows : list row) (d : odict parameter) :
  inventory_inv rows0 d ->
  exists d', for_each inventory_row rows d = Ok d' /\
             inventory_inv (rows0 ++ rows) d'.
Proof.
  revert rows0 d. induction rows as [|r rows IH]; intros rows0 d Hinv; simpl.
  - exists d. by rewrite app_nil_r.
  - rewrite inventory_row_eq. simpl.
    apply (inventory_inv_step _ _ r) in Hinv.
    apply IH in Hinv as (d' & Hd' & Hinv').
    exists d'. split; [done|]. by rewrite <- app_assoc in Hinv'.
Qed.

Lemma inventory_inv_nil : inventory_inv [] [].
Proof.
  split_and!; [apply keyed_by_nil| |].
  - intros kq H. by apply elem_of_nil in H.
  - intros r q H. by apply elem_of_nil in H.
Qed.

Lemma inventory_file_inv (p : parser) (rows0 : list row)
    (st : odict parameter * list message) (f : source_file) :
  inventory_inv rows0 st.1 ->
  exists st', inventory_file p st f = Ok st' /\
              inventory_inv (rows0 ++ inventory_rows_of p f) st'.1.
Proof.
  intros Hinv. unfold inventory_file, inventory_rows_of.
  destruct (extract_county_name p (sf_name f)) as [county_name|];
    [|exists st; by rewrite app_nil_r].
  destruct (truthy county_name); simpl; [|exists st; by rewrite app_nil_r].
  pose proof (empty_header_no_rows f) as Hempty. unfold data_rows in *.
  destruct (parse_tab_delimited_file f) as [warnings [headers rows]].
  simpl in *. destruct headers as [|h hs].
  - rewrite Hempty by done. eexists. split; [done|]. by rewrite app_nil_r.
  - destruct (for_each_inventory_row rows0 rows st.1 Hinv) as (d' & -> & Hd').
    simpl. eexists. split; [done|]. done.
Qed.

Lemma for_each_inventory_file (p : parser) (files : list source_file)
    (rows0 : list row) (st : odict parameter * list message) :
  inventory_inv rows0 st.1 ->
  exists st', for_each (inventory_file p) files st = Ok st' /\
    inventory_inv (rows0 ++ concat (map (inventory_rows_of p) files)) st'.1.
Proof.
  revert rows0 st. induction files as [|f files IH]; intros rows0 st Hinv.
  - exists st. simpl. by rewrite app_nil_r.
  - simpl. destruct (inventory_file_inv p rows0 st f Hinv) as (st1 & -> & H1).
    simpl. apply IH in H1 as (st' & Hst' & Hinv').
    exists st'. split; [done|]. by rewrite <- app_assoc in Hinv'.
Qed.



(** ** Station extraction *)

Ltac bind_ok :=
  match goal with
  | |- context [mbind _ ?r] =>
      destruct r eqn:?; simpl; [|intros; discriminate]
  end.

Lemma station_row_cases (state_field : row -> gmap string Z -> result string)
    (header_map : gmap string Z) (d : odict station) (r : row)
    (d' : odict station) :
  station_row state_field header_map d r = Ok d' ->
  d' = d \/
  exists s,
    d' = d ++ [(station_id s, s)] /\
    od_mem (station_id s) d = false /\
    2 <= len r /\
    resolve_station_id r header_map = Ok (station_id s) /\
    station_id s <> EmptyString /\
    state_field r header_map = Ok (state s).
Proof.
  unfold station_row.
  destruct (Z.ltb_spec (len r) 2) as [?|Hlen]; [intros [= <-]; by left|].
  bind_ok.
  destruct (truthy a) eqn:Ha; simpl; [|intros [= <-]; by left].
  destruct (od_mem a d) eqn:Hm; simpl; [intros [= <-]; by left|].
  do 3 bind_ok.
  destruct (state_field r header_map) as [st|] eqn:Hst; simpl;
    [|intros; discriminate].
  do 5 bind_ok.
  destruct (0 <? len r); simpl.
  - bind_ok. intros [= <-]. right. eexists. simpl.
    split_and!; [by apply od_set_fresh|done|done|done| |done].
    simpl. intros ->. done.
  - intros [= <-]. right. eexists. simpl.
    split_and!; [by apply od_set_fresh|done|done|done| |done].
    simpl. intros ->. done.
Qed.

Lemma station_row_keyed (state_field : row -> gmap string Z -> result string)
    (header_map : gmap string Z) (d : odict station) (r : row)
    (d' : odict station) :
  keyed_by station_id d ->
  station_row state_field header_map d r = Ok d' ->
  keyed_by station_id d'.
Proof.
  intros Hk Hrow.
  apply station_row_cases in Hrow as [->|(s & -> & Hm & _)]; [done|].
  by apply keyed_by_snoc.
Qed.

Lemma for_each_keyed {V A : Type} (key : V -> string)
    (body : odict V -> A -> result (odict V)) (l : list A) (d d' : odict V) :
  (forall d0 x d1, keyed_by key d0 -> body d0 x = Ok d1 -> keyed_by key d1) ->
  keyed_by key d -> for_each body l d = Ok d' -> keyed_by key d'.
Proof.
  intros Hbody. revert d. induction l as [|x l IH]; intros d Hk; simpl.
  - by intros [= <-].
  - destruct (body d x) as [d1|] eqn:Hd1; simpl; [|done].
    apply IH. eauto.
Qed.

Lemma station_file_keyed
    (state_field : row -> gmap string Z -> result string)
    (st st' : odict station * list message) (f : source_file) :
  keyed_by station_id st.1 ->
  station_file state_field st f = Ok st' -> keyed_by station_id st'.1.
Proof.
  intros Hk. unfold station_file.
  destruct (parse_tab_delimited_file f) as [warnings [headers rows]].
  destruct headers as [|h hs]; [by intros [= <-]|].
  destruct (for_each _ rows st.1) as [d1|] eqn:Hd1; simpl; [|done].
  intros [= <-]. simpl.
  eapply for_each_keyed; [|exact Hk|exact Hd1].
  intros d0 x d2. apply station_row_keyed.
Qed.

Lemma for_each_station_file_keyed
    (state_field : row -> gmap string Z -> result string)
    (files : list source_file) (st st' : odict station * list message) :
  keyed_by station_id st.1 ->
  for_each (station_file state_field) files st = Ok st' ->
  keyed_by station_id st'.1.
Proof.
  revert st. induction files as [|f files IH]; intros st Hk; simpl.
  - by intros [= <-].
  - destruct (station_file state_field st f) as [st1|] eqn:H1; simpl; [|done].
    apply IH. by eapply station_file_keyed.
Qed.


(** ** Result extraction *)

Lemma count_wide_nil : count_wide [] = 0%nat.
Proof. done. Qed.

Lemma count_wide_app (l1 l2 : list row) :
  count_wide (l1 ++ l2) = (count_wide l1 + count_wide l2)%nat.
Proof. unfold count_wide. by rewrite filter_app, length_app. Qed.

Lemma count_wide_cons (r : row) (l : list row) :
  count_wide (r :: l) =
  ((if (len r <? 10)%Z then 0 else 1) + count_wide l)%nat.
Proof.
  unfold count_wide. rewrite filter_cons.
  destruct (Z.ltb_spec (len r) 10).
  - by rewrite decide_False by lia.
  - by rewrite decide_True by lia.
Qed.

Lemma result_row_eq (hs : list string) (rs : list measurement) (r : row) :
  exists m, result_row (make_header_map hs) rs r =
            Ok (if len r <? 10 then rs else rs ++ [m]).
Proof.
  unfold result_row, resolve_field. rewrite !resolve_field_else_eq. simpl.
  eexists. destruct (len r <? 10); reflexivity.
Qed.

Lemma for_each_result_row (hs : list string) (rows : list row)
    (rs : list measurement) :
  exists rs', for_each (result_row (make_header_map hs)) rows rs = Ok rs' /\
              length rs' = (length rs + count_wide rows)%nat.
Proof.
  revert rs. induction rows as [|r rows IH]; intros rs; simpl.
  - exists rs. rewrite count_wide_nil. split; [done|lia].
  - destruct (result_row_eq hs rs r) as (m & ->). simpl.
    rewrite count_wide_cons. destruct (len r <? 10).
    + apply IH.
    + destruct (IH (rs ++ [m])) as (rs' & -> & Hlen).
      exists rs'. split; [done|]. rewrite Hlen, length_app. simpl. lia.
Qed.

Lemma result_file_count (st : list measurement * list message)
    (f : source_file) :
  exists st', result_file st f = Ok st' /\
              length st'.1 = (length st.1 + count_wide (data_rows f))%nat.
Proof.
  unfold result_file. pose proof (empty_header_no_rows f) as Hempty.
  unfold data_rows in *.
  destruct (parse_tab_delimited_file f) as [warnings [headers rows]].
  simpl in *. destruct headers as [|h hs].
  - rewrite Hempty by done. eexists. split; [done|]. simpl.
    rewrite count_wide_nil. lia.
  - destruct (for_each_result_row (h :: hs) rows st.1) as (rs' & -> & Hlen).
    simpl. eexists. split; [done|]. done.
Qed.

Lemma for_each_result_file (files : list source_file)
    (st : list measurement * list message) :
  exists st', for_each result_file files st = Ok st' /\
    length st'.1 =
      (length st.1 + count_wide (concat (map data_rows files)))%nat.
Proof.
  revert st. induction files as [|f files IH]; intros st; simpl.
  - exists st. rewrite count_wide_nil. split; [done|lia].
  - destruct (result_file_count st f) as (st1 & -> & H1). simpl.
    destruct (IH st1) as (st' & -> & H'). exists st'. split; [done|].
    rewrite count_wide_app. lia.
Qed.

Lemma parse_result_files_count (p : parser) (out : list message) :
  exists p' out',
    parse_result_files p out = Ok (p', out') /\
    parameters p' = parameters p /\ stations p' = stations p /\
    length (results p') =
      (length (results p) +
       count_wide (concat (map data_rows
                             (glob (data_dir p) (result_pattern p)))))%nat.
Proof.
  unfold parse_result_files.
  destruct (glob (data_dir p) (result_pattern p)) as [|f files].
  - exists p, out. split_and!; try done; simpl; rewrite count_wide_nil; lia.
  - destruct (for_each_result_file (f :: files) (results p, out))
      as ([rs out'] & -> & Hlen).
    simpl in *. exists (with_results p rs), out'. by split_and!.
Qed.

(** C3. Result extraction always completes, and afterwards the result
    collection of a parser has grown by the number of data rows of the matched
    result files that have at least ten fields; on the parser that [__init__]
    builds, whose collection is empty, its size is that number. Row by row: a
    row of fewer than ten fields leaves the collection as it is, a row of at
    least ten fields appends exactly one record. *)
Theorem result_count_is_number_of_wide_rows :
  (forall (p : parser) (out : list message),
     exists p' out',
       parse_result_files p out = Ok (p', out') /\
       length (results p') =
         (length (results p) +
          count_wide (concat (map data_rows
                                (glob (data_dir p) (result_pattern p)))))%nat)
  /\
  (forall (dir abbr name : string) (out : list message),
     let p := init dir abbr name in
     exists p' out',
       parse_result_files p out = Ok (p', out') /\
       length (results p') =
         count_wide (concat (map data_rows
                               (glob (data_dir p) (result_pattern p)))))
  /\
  (forall (headers : list string) (rs : list measurement) (r : row),
     exists m,
       result_row (make_header_map headers) rs r =
       Ok (if len r <? 10 then rs else rs ++ [m])).
Proof.
  split_and!.
  - intros p out.
    destruct (parse_result_files_count p out) as (p' & out' & H & _ & _ & Hl).
    by exists p', out'.
  - intros dir abbr name out p.
    destruct (parse_result_files_count p out) as (p' & out' & H & _ & _ & Hl).
    by exists p', out'.
  - apply result_row_eq.
Qed.

(** ** Claims about parameter extraction *)

Lemma keyed_by_keys {V : Type} (key : V -> string) (d : odict V) :
  keyed_by key d -> od_keys d = map key (od_values d).
Proof.
  intros [Hk _]. unfold od_values, od_keys.
  induction Hk as [|[k v] d Hkv _ IH]; simpl; [done|].
  simpl in Hkv. by rewrite Hkv, IH.
Qed.

Lemma elem_of_map {A B : Type} (f : A -> B) (l : list A) (y : B) :
  y ∈ map f l <-> exists x, f x = y /\ x ∈ l.
Proof.
  rewrite list_elem_of_In, in_map_iff.
  split; intros (x & Hx & Hin); exists x; split; try done;
    by apply list_elem_of_In.
Qed.


(** C10. An inventory row of fewer than three fields leaves the parameter
    dictionary as it is, whatever its code. *)
Theorem short_inventory_row_is_skipped (d : odict parameter) (r : row) :
  (length r < 3)%nat -> inventory_row d r = Ok d.
Proof.
  intros Hlen. unfold inventory_row.
  destruct (Z.leb_spec 3 (len r)) as [Hge|_]; [|done].
  unfold len in Hge. lia.
Qed.

(** ** Claims about uniqueness of the natural keys *)

Lemma parse_inventory_files_unique (p : parser) (out : list message) :
  unique_keys p ->
  exists p' out', parse_inventory_files p out = Ok (p', out') /\
                  unique_keys p'.
Proof.
  intros [Hps Hss]. unfold parse_inventory_files.
  destruct (glob (data_dir p) (state_abbr p +:+ "_*_inv.txt")) as [|f files].
  - by exists p, out.
  - destruct (for_each_inventory_file p (f :: files) [] ([], out)
                inventory_inv_nil) as ([d out'] & -> & Hk & _).
    simpl. eexists _, _. split; [done|]. split; simpl; [|done].
    by apply keyed_by_values.
Qed.

Lemma parse_station_files_unique (p : parser) (out : list message)
    (p' : parser) (out' : list message) :
  unique_keys p -> parse_station_files p out = Ok (p', out') ->
  unique_keys p'.
Proof.
  intros [Hps Hss]. unfold parse_station_files.
  destruct (glob (data_dir p) (station_pattern p)) as [|f files].
  - by intros [= <- <-].
  - destruct (for_each (station_file _) (f :: files) ([], out))
      as [[d o]|] eqn:Hfe;
      simpl; [|done].
    intros [= <- <-]. split; simpl; [done|].
    apply keyed_by_values.
    apply for_each_station_file_keyed in Hfe; [done|apply keyed_by_nil].
Qed.

(** C5. From a parser whose collections have distinct codes and distinct
    station ids (as the empty collections of [__init__] have), each of the
    three extractions leads to such a parser again: parameter and result
    extraction always complete, station extraction whenever it returns
    (when it raises, the parser is left as it was). Inside
    the loops, the dictionaries keep distinct keys, equal to the natural keys
    of their values, across the processing of any further row. *)
Theorem natural_keys_stay_unique (p : parser) (out : list message) :
  unique_keys p ->
  (exists p' out', parse_inventory_files p out = Ok (p', out') /\
                   unique_keys p') /\
  (forall p' out', parse_station_files p out = Ok (p', out') ->
                   unique_keys p') /\
  (exists p' out', parse_result_files p out = Ok (p', out') /\
                   unique_keys p') /\
  (forall d r, keyed_by code d ->
               exists d', inventory_row d r = Ok d' /\ keyed_by code d') /\
  (forall state_field header_map d r d',
     keyed_by station_id d ->
     station_row state_field header_map d r = Ok d' ->
     keyed_by station_id d').
Proof.
  intros Hu. split_and!.
  - by apply parse_inventory_files_unique.
  - intros p' out'. by apply parse_station_files_unique.
  - destruct (parse_result_files_count p out)
      as (p' & out' & Hrun & Hps & Hss & _).
    exists p', out'. split; [done|]. destruct Hu as [H1 H2].
    split; by rewrite ?Hps, ?Hss.
  - intros d r Hk. rewrite inventory_row_eq. eexists. split; [done|].
    destruct (inventory_candidate r) as [q|]; [|done].
    destruct (od_mem (code q) d) eqn:Hm; [done|]. by apply keyed_by_snoc.
  - intros state_field header_map d r d'. apply station_row_keyed.
Qed.

(** ** Claims about the state of a station *)

(** C6 (counterexample). The row has a [State Name] column that reads
    ["Oregon"], the configured name is ["Washington"]: the station is kept
    and its state is the configured name, not the value of the column. *)
Lemma configured_state_overrides_state_column :
  let header_map := make_header_map sample_station_headers in
  header_map !! "State Name"%string = Some 4 /\
  getitem sample_station_row 4 = Ok "Oregon"%string /\
  exists s,
    station_row (state_field_configured "Washington") header_map []
      sample_station_row = Ok [("S1"%string, s)] /\
    state s = "Washington"%string /\
    state s <> "Oregon"%string.
Proof. vm_compute. split_and!; [done|done|]. eexists. by split_and!. Qed.

(** C6 (amended). A station row kept by the station extraction of
    [StateDataParser] gets the configured state name as its state, whether
    or not the row has a state column. A station row kept by the station
    extraction of [WashingtonDataParser] gets the trimmed value of the
    [State Name] column when the header has that column and the row is long
    enough to hold it, and ["Washington"] otherwise. *)
Theorem kept_station_state (name : string) (headers : list string)
    (d : odict station) (r : row) :
  (forall d',
     station_row (state_field_configured name) (make_header_map headers) d r
       = Ok d' ->
     d' = d \/
     exists s, d' = d ++ [(station_id s, s)] /\ state s = name)
  /\
  (forall d',
     station_row state_field_washington (make_header_map headers) d r
       = Ok d' ->
     d' = d \/
     exists s,
       d' = d ++ [(station_id s, s)] /\
       state s =
         match make_header_map headers !! "State Name"%string with
         | Some i =>
             if i <? len r then strip (nth (Z.to_nat i) r EmptyString)
             else "Washington"%string
         | None => "Washington"%string
         end).
Proof.
  split; intros d' Hrow;
    apply station_row_cases in Hrow
      as [->|(s & -> & _ & _ & _ & _ & Hstate)]; try (by left);
    right; exists s; (split; [done|]).
  - unfold state_field_configured in Hstate. by injection Hstate.
  - unfold state_field_washington in Hstate.
    rewrite resolve_field_else_eq in Hstate. by injection Hstate.
Qed.

(** ** The run controller *)

Lemma join_inj (dir a b : string) : join dir a = join dir b -> a = b.
Proof.
  unfold join. induction dir as [|c dir IH].
  - intros H. by injection H.
  - intros H. injection H as H. by apply IH.
Qed.

Lemma parse_inventory_files_state_name (p : parser) (out : list message)
    (p' : parser) (out' : list message) :
  parse_inventory_files p out = Ok (p', out') -> state_name p' = state_name p.
Proof.
  unfold parse_inventory_files.
  destruct (glob _ _) as [|f files]; [by intros [= <- <-]|].
  destruct (for_each (inventory_file p) _ _) as [st|]; simpl; [|done].
  by intros [= <- <-].
Qed.

Lemma parse_station_files_state_name (p : parser) (out : list message)
    (p' : parser) (out' : list message) :
  parse_station_files p out = Ok (p', out') -> state_name p' = state_name p.
Proof.
  unfold parse_station_files.
  destruct (glob _ _) as [|f files]; [by intros [= <- <-]|].
  destruct (for_each (station_file _) _ _) as [st|]; simpl; [|done].
  by intros [= <- <-].
Qed.

Lemma parse_result_files_state_name (p : parser) (out : list message)
    (p' : parser) (out' : list message) :
  parse_result_files p out = Ok (p', out') -> state_name p' = state_name p.
Proof.
  unfold parse_result_files.
  destruct (glob _ _) as [|f files]; [by intros [= <- <-]|].
  destruct (for_each result_file _ _) as [st|]; simpl; [|done].
  by intros [= <- <-].
Qed.

(** The two scripts a completed run leaves behind depend on the state name
    only. *)
Lemma run_scripts (p : parser) (output_dir : string) (w : world)
    (p' : parser) (w' : world) :
  run p output_dir w = Ok (p', w') ->
  files w' !! join output_dir "schema.sql" = Some (SchemaSql (state_name p))
  /\
  files w' !! join output_dir "import_to_sqlite.sh" =
    Some (ImportScript (state_name p)
            (str_lower (state_name p) +:+ "_water.db")).
Proof.
  assert (Hne : join output_dir "import_to_sqlite.sh"
                <> join output_dir "schema.sql")
    by (intros H; by apply join_inj in H).
  unfold run.
  destruct (path_exists w _ && path_exists w _ && path_exists w _).
  - intros [= <- <-]. simpl.
    rewrite lookup_insert_eq, lookup_insert_ne, lookup_insert_eq by done.
    done.
  - destruct (parse_inventory_files p []) as [[p1 o1]|] eqn:H1; simpl; [|done].
    destruct (parse_station_files p1 o1) as [[p2 o2]|] eqn:H2; simpl; [|done].
    destruct (parse_result_files p2 o2) as [[p3 o3]|] eqn:H3; simpl; [|done].
    intros [= <- <-]. simpl.
    apply parse_inventory_files_state_name in H1.
    apply parse_station_files_state_name in H2.
    apply parse_result_files_state_name in H3.
    rewrite lookup_insert_eq, lookup_insert_ne, lookup_insert_eq by done.
    by rewrite H3, H2, H1.
Qed.

(** C8. When the three delimited files exist in the output directory, the run
    completes without extraction: the parser is returned as it was and nothing
    but the skip notice is printed; every file other than the schema and the
    load script, the three delimited files in particular, keeps its content;
    the schema and the load script are written, with the content that any
    completed run of the same parser on the same output directory writes. *)
Theorem rerun_keeps_delimited_files (p : parser) (output_dir : string)
    (w : world) :
  path_exists w (join output_dir "parameters.csv") = true ->
  path_exists w (join output_dir "stations.csv") = true ->
  path_exists w (join output_dir "results.csv") = true ->
  exists w',
    run p output_dir w = Ok (p, w') /\
    stdout w' = stdout w ++ [NoteSkippingParsing output_dir] /\
    (forall path,
       path <> join output_dir "schema.sql" ->
       path <> join output_dir "import_to_sqlite.sh" ->
       files w' !! path = files w !! path) /\
    files w' !! join output_dir "parameters.csv" =
      files w !! join output_dir "parameters.csv" /\
    files w' !! join output_dir "stations.csv" =
      files w !! join output_dir "stations.csv" /\
    files w' !! join output_dir "results.csv" =
      files w !! join output_dir "results.csv" /\
    (forall w0 p1 w1,
       run p output_dir w0 = Ok (p1, w1) ->
       files w1 !! join output_dir "schema.sql" =
         files w' !! join output_dir "schema.sql" /\
       files w1 !! join output_dir "import_to_sqlite.sh" =
         files w' !! join output_dir "import_to_sqlite.sh").
Proof.
  intros Hp Hs Hr.
  assert (Hrun : exists w', run p output_dir w = Ok (p, w') /\
            stdout w' = stdout w ++ [NoteSkippingParsing output_dir] /\
            files w' =
              <[join output_dir "import_to_sqlite.sh" :=
                  ImportScript (state_name p)
                    (str_lower (state_name p) +:+ "_water.db")]>
                (<[join output_dir "schema.sql" := SchemaSql (state_name p)]>
                   (files w))).
  { unfold run. rewrite Hp, Hs, Hr. simpl. eexists. by split_and!. }
  destruct Hrun as (w' & Hrun & Hout & Hfiles).
  assert (Hkeep : forall path,
            path <> join output_dir "schema.sql" ->
            path <> join output_dir "import_to_sqlite.sh" ->
            files w' !! path = files w !! path).
  { intros path H1 H2. rewrite Hfiles.
    by rewrite !lookup_insert_ne by done. }
  exists w'. split_and!; try done.
  - apply Hkeep; intros H; by apply join_inj in H.
  - apply Hkeep; intros H; by apply join_inj in H.
  - apply Hkeep; intros H; by apply join_inj in H.
  - intros w0 p1 w1 H1.
    apply run_scripts in H1 as [-> ->].
    apply run_scripts in Hrun as [-> ->]. done.
Qed.

(** The configuration check of [main], in terms of the directory that
    [main] resolves from its arguments, [actual_data_dir]: when it does not
    exist, the process exits with status 1, having recorded the error message
    and nothing else, and having created or written no file or directory;
    when it exists, [main] goes on to run the parser, and does not end with an
    exit of the configuration check. *)
Theorem missing_input_directory_is_fatal (a : args) (w : world) :
  let actual_data_dir :=
    join (arg_data_dir a) (str_capitalize (arg_state_name a)) in
  (path_exists w actual_data_dir = false ->
   exists w',
     main a w = (Exit 1, w') /\ 1 <> 0 /\
     stdout w' = stdout w ++ [ErrDataDirNotFound actual_data_dir] /\
     files w' = files w /\ dirs w' = dirs w /\
     executable w' = executable w)
  /\
  (path_exists w actual_data_dir = true ->
   main a w =
     match run (init actual_data_dir (arg_state_abbr a) (arg_state_name a))
             (arg_output a) w with
     | Ok (_, w') => (Returned, w')
     | Raise e => (Uncaught e, w)
     end /\
   forall status, (main a w).1 <> Exit status).
Proof.
  intros actual_data_dir. unfold main. fold actual_data_dir. split.
  - intros ->. simpl. eexists. by split_and!.
  - intros ->. simpl. split; [done|]. intros status.
    by destruct (run _ _ w) as [[p' w']|e].
Qed.

(** * Further properties of the reader *)

Lemma lstrip_head (s : string) :
  lstrip s = EmptyString \/
  exists c t, lstrip s = String c t /\ isspace c = false.
Proof using Type.
  induction s as [|c s IH]; simpl; [by left|].
  destruct (isspace c) eqn:Hc; [done|]. right. by exists c, s.
Qed.

Lemma rstrip_idem (s : string) : rstrip (rstrip s) = rstrip s.
Proof using Type.
  induction s as [|c s IH]; simpl; [done|].
  destruct (rstrip s) as [|c' r] eqn:Hr.
  - destruct (isspace c) eqn:Hc; simpl; [done|]. by rewrite Hc.
  - simpl in *. by rewrite IH.
Qed.

Lemma rstrip_head (c : ascii) (s : string) :
  isspace c = false -> exists t, rstrip (String c s) = String c t.
Proof using Type.
  intros Hc. simpl. destruct (rstrip s) as [|c' r]; [|by eexists].
  rewrite Hc. by eexists.
Qed.

Lemma strip_idem (s : string) : strip (strip s) = strip s.
Proof using Type.
  unfold strip. destruct (lstrip_head s) as [->|(c & t & -> & Hc)]; [done|].
  destruct (rstrip_head c t Hc) as (t' & Ht'). rewrite Ht'.
  simpl lstrip. rewrite Hc. rewrite <- Ht'. apply rstrip_idem.
Qed.

Lemma lstrip_all_space (s : string) :
  lstrip s = EmptyString <-> all_space s = true.
Proof using Type.
  induction s as [|c s IH]; simpl; [done|].
  destruct (isspace c); simpl; [done|]. split; intros H; discriminate H.
Qed.

Lemma strip_all_space (s : string) :
  strip s = EmptyString <-> all_space s = true.
Proof using Type.
  rewrite <- lstrip_all_space. unfold strip. split; [|by intros ->].
  destruct (lstrip_head s) as [->|(c & t & -> & Hc)]; [done|].
  destruct (rstrip_head c t Hc) as (t' & ->). intros H. discriminate H.
Qed.

Lemma split_all_space (sep : ascii) (s : string) :
  isspace sep = true ->
  Forall (fun x => all_space x = true) (split sep s) -> all_space s = true.
Proof using Type.
  intros Hsep. induction s as [|c s IH]; simpl; [done|].
  destruct (Ascii.eqb_spec c sep) as [->|Hne].
  - intros H. apply Forall_cons in H as [_ H]. rewrite Hsep. by apply IH.
  - destruct (split sep s) as [|p ps] eqn:Hs; [by apply split_not_nil in Hs|].
    intros H. apply Forall_cons in H as [Hp H]. simpl in Hp.
    apply andb_true_iff in Hp as [-> Hp]. simpl. apply IH. by constructor.
Qed.

Lemma split_no_sep (sep : ascii) (s : string) :
  Forall (fun x => has_char sep x = false) (split sep s).
Proof using Type.
  induction s as [|c s IH]; simpl; [by constructor|].
  destruct (Ascii.eqb_spec c sep) as [->|Hne].
  - by constructor.
  - destruct (split sep s) as [|p ps] eqn:Hs; [by apply split_not_nil in Hs|].
    apply Forall_cons in IH as [Hp IH]. constructor; [|done]. simpl.
    rewrite Hp. by apply Ascii.eqb_neq in Hne as ->.
Qed.

Lemma lstrip_no_char (a : ascii) (s : string) :
  has_char a s = false -> has_char a (lstrip s) = false.
Proof using Type.
  induction s as [|c s IH]; simpl; [done|].
  intros H. apply orb_false_iff in H as [Hc Hs].
  destruct (isspace c); [by apply IH|]. simpl. by rewrite Hc, Hs.
Qed.

Lemma rstrip_no_char (a : ascii) (s : string) :
  has_char a s = false -> has_char a (rstrip s) = false.
Proof using Type.
  induction s as [|c s IH]; simpl; [done|].
  intros H. apply orb_false_iff in H as [Hc Hs]. specialize (IH Hs).
  destruct (rstrip s) as [|c' r].
  - destruct (isspace c); [done|]. simpl. by rewrite Hc.
  - simpl in *. by rewrite Hc, IH.
Qed.

Lemma strip_no_char (a : ascii) (s : string) :
  has_char a s = false -> has_char a (strip s) = false.
Proof using Type. intros H. by apply rstrip_no_char, lstrip_no_char. Qed.

Lemma fields_trimmed (line : string) :
  Forall (fun x => strip x = x /\ has_char TAB x = false)
    (map strip (split TAB line)).
Proof using Type.
  pose proof (split_no_sep TAB line) as H.
  induction H as [|x l Hx _ IH]; simpl; constructor; [|done].
  split; [apply strip_idem|by apply strip_no_char].
Qed.

(** X1. Whatever the file, every name of the header and every field of every
    data row that the reader returns is already trimmed, so that trimming it
    again (as the extractors do) changes nothing, and contains no tab. *)
Theorem reader_fields_are_trimmed (f : source_file) :
  Forall (fun x => strip x = x /\ has_char TAB x = false) (header_of f) /\
  Forall (Forall (fun x => strip x = x /\ has_char TAB x = false))
    (data_rows f).
Proof using Type.
  unfold header_of, data_rows. rewrite reader_cases.
  destruct (sf_read f) as [e|[|line0 [|line1 rest]]]; simpl;
    try (split; constructor).
  split; [apply fields_trimmed|].
  induction (filter (fun line => truthy (strip line)) rest) as [|l ls IH];
    simpl; constructor; [apply fields_trimmed|done].
Qed.

Lemma nonblank_line_has_field (line : string) :
  truthy (strip line) = true ->
  exists x, x ∈ map strip (split TAB line) /\ x <> EmptyString.
Proof using Type.
  intros Hline.
  destruct (decide (Exists (fun x => x <> EmptyString)
                      (map strip (split TAB line)))) as [Hex|Hno].
  - apply Exists_exists in Hex as (x & Hin & Hx). by exists x.
  - exfalso. apply not_Exists_Forall in Hno; [|apply _].
    assert (Hall : all_space line = true).
    { apply (split_all_space TAB); [done|].
      apply Forall_forall. intros x Hx. apply strip_all_space.
      rewrite Forall_forall in Hno.
      destruct (decide (strip x = EmptyString)) as [|Hne]; [done|].
      exfalso. apply (Hno (strip x)); [|done].
      apply elem_of_map. by exists x. }
    apply strip_all_space in Hall. by rewrite Hall in Hline.
Qed.

(** X2. A data row returned by the reader is never an empty list and always
    has a field that is not empty: blank lines, and lines made of tabs and
    white space only, give no row. There are at most as many data rows as
    lines after the second. *)
Theorem reader_rows_are_not_blank (f : source_file) :
  (forall r, r ∈ data_rows f ->
             r <> [] /\ exists x, x ∈ r /\ x <> EmptyString) /\
  (forall lines, sf_read f = Lines lines ->
                 (length (data_rows f) <= length lines - 2)%nat).
Proof using Type.
  unfold data_rows. rewrite reader_cases. split.
  - intros r.
    destruct (sf_read f) as [e|[|line0 [|line1 rest]]]; simpl;
      try (intros H; by apply elem_of_nil in H).
    intros Hr. apply elem_of_map in Hr as (line & <- & Hline).
    apply list_elem_of_filter in Hline as [Hline _]. split.
    + intros H. apply map_eq_nil in H. by apply split_not_nil in H.
    + apply nonblank_line_has_field. by destruct (truthy (strip line)).
  - intros lines ->. destruct lines as [|line0 [|line1 rest]]; simpl; try lia.
    rewrite length_map. pose proof (length_filter
      (fun line => truthy (strip line)) rest). lia.
Qed.


(** * Further properties of column resolution *)

Lemma header_map_from_eq (hs : list string) (i : Z) (m : gmap string Z)
    (name : string) :
  header_map_from i hs m !! name =
  match last_index name hs with
  | Some j => Some (i + Z.of_nat j)
  | None => m !! name
  end.
Proof using Type.
  revert i m. induction hs as [|h t IH]; intros i m; simpl; [done|].
  rewrite IH. destruct (last_index name t) as [j|].
  - f_equal. lia.
  - destruct (decide (h = name)) as [->|Hne].
    + rewrite lookup_insert_eq. f_equal. lia.
    + by rewrite lookup_insert_ne.
Qed.

Lemma last_index_spec (name : string) (hs : list string) :
  match last_index name hs with
  | Some j => hs !! j = Some name /\ name ∉ drop (S j) hs
  | None => name ∉ hs
  end.
Proof using Type.
  induction hs as [|h t IH]; simpl; [apply not_elem_of_nil|].
  destruct (last_index name t) as [j|]; [done|].
  destruct (decide (h = name)) as [->|Hne].
  - split; [done|]. by rewrite drop_0.
  - intros Hin. apply elem_of_cons in Hin as [?|?]; by subst.
Qed.

Lemma last_position_unique (name : string) (hs : list string) (j j' : nat) :
  hs !! j = Some name -> name ∉ drop (S j) hs ->
  hs !! j' = Some name -> name ∉ drop (S j') hs -> j = j'.
Proof using Type.
  assert (Hlt : forall a b : nat,
            (a < b)%nat -> hs !! b = Some name -> name ∈ drop (S a) hs).
  { intros a b Hab Hb. apply list_elem_of_lookup. exists (b - S a)%nat.
    rewrite lookup_drop. by replace (S a + (b - S a))%nat with b by lia. }
  intros Hj Hnj Hj' Hnj'.
  destruct (Nat.lt_trichotomy j j') as [H|[H|H]]; [|done|].
  - by destruct Hnj; apply (Hlt j j').
  - by destruct Hnj'; apply (Hlt j' j).
Qed.

(** X4. The header map sends a name to the position of its last occurrence
    in the header line (a later column of the same name overwrites an earlier
    one), and has no entry for a name that the header line does not have. *)
Theorem header_map_last_occurrence (hs : list string) (name : string) :
  (forall i : Z,
     make_header_map hs !! name = Some i <->
     0 <= i /\ hs !! Z.to_nat i = Some name /\
     name ∉ drop (S (Z.to_nat i)) hs) /\
  (make_header_map hs !! name = None <-> name ∉ hs).
Proof using Type.
  unfold make_header_map. rewrite header_map_from_eq, lookup_empty.
  pose proof (last_index_spec name hs) as Hspec.
  destruct (last_index name hs) as [j|].
  - destruct Hspec as [Hj Hnj]. split.
    + intros i. split.
      * intros [= <-]. rewrite Z.add_0_l, Nat2Z.id. split_and!; [lia|done|done].
      * intros (Hi & Hi1 & Hi2). f_equal.
        rewrite (last_position_unique name hs j (Z.to_nat i)) by done. lia.
    + split; [done|]. intros Hno. destruct Hno.
      apply list_elem_of_lookup. by exists j.
  - split; [|done]. intros i. split; [done|].
    intros (_ & Hi & _). destruct Hspec. apply list_elem_of_lookup. eauto.
Qed.

(** X5. With a header map built from a header line, resolving a named field
    never raises and never looks at the positional default: the value is the
    empty string when the header has no column of that name, and otherwise
    the trimmed field at the position of the last such column, or the empty
    string when the row is too short to have that position. *)
Theorem resolve_field_by_header (r : row) (hs : list string) (name : string)
    (d : Z) :
  (name ∉ hs -> resolve_field r (make_header_map hs) name d = Ok EmptyString)
  /\
  (forall j : nat,
     hs !! j = Some name -> name ∉ drop (S j) hs ->
     resolve_field r (make_header_map hs) name d =
     Ok (match r !! j with Some x => strip x | None => EmptyString end)).
Proof using Type.
  unfold resolve_field. rewrite resolve_field_else_eq.
  unfold make_header_map. rewrite header_map_from_eq, lookup_empty.
  pose proof (last_index_spec name hs) as Hspec. split.
  - intros Hno. destruct (last_index name hs) as [j|]; [|done].
    destruct Hspec as [Hj _]. destruct Hno.
    apply list_elem_of_lookup. by exists j.
  - intros j Hj Hnj. destruct (last_index name hs) as [j'|].
    + destruct Hspec as [Hj' Hnj'].
      rewrite (last_position_unique name hs j' j) by done.
      rewrite Z.add_0_l, Nat2Z.id. unfold len.
      destruct (Z.ltb_spec (Z.of_nat j) (Z.of_nat (length r))) as [Hlt|Hge].
      * destruct (r !! j) as [x|] eqn:Hx.
        -- by rewrite (nth_lookup_Some _ _ _ _ Hx).
        -- apply lookup_ge_None in Hx. lia.
      * destruct (r !! j) as [x|] eqn:Hx; [|done].
        apply lookup_lt_Some in Hx. lia.
    + destruct Hspec. apply list_elem_of_lookup. eauto.
Qed.

(** * Further properties of station extraction *)

Lemma getitem_last (r : row) :
  0 < len r -> getitem r (-1) = Ok (nth (length r - 1) r EmptyString).
Proof using Type.
  intros Hpos. unfold getitem. unfold len in *. simpl.
  destruct (Z.ltb_spec (Z.of_nat (length r) + -1) 0) as [?|_]; [lia|].
  destruct (Z.leb_spec (Z.of_nat (length r)) (Z.of_nat (length r) + -1))
    as [?|_]; [lia|]. simpl.
  replace (Z.to_nat (Z.of_nat (length r) + -1)) with (length r - 1)%nat by lia.
  destruct (r !! (length r - 1)%nat) as [x|] eqn:Hx.
  - by rewrite (nth_lookup_Some _ _ _ _ Hx).
  - apply lookup_ge_None in Hx. lia.
Qed.

Lemma getitem_out_of_range (r : row) (i : Z) :
  len r <= i -> getitem r i = Raise IndexError.
Proof using Type.
  intros Hi. unfold getitem. assert (0 <= len r) by (unfold len; lia).
  destruct (Z.ltb_spec i 0) as [?|_]; [lia|].
  destruct (Z.ltb_spec i 0) as [?|_]; [lia|].
  by destruct (Z.leb_spec (len r) i) as [_|?]; [|lia].
Qed.

Lemma resolve_station_id_eq (r : row) (hs : list string) :
  2 <= len r ->
  resolve_station_id r (make_header_map hs) =
  match station_id_of hs r with
  | Some id => Ok id
  | None => Raise IndexError
  end.
Proof using Type.
  intros Hlen. unfold resolve_station_id, station_id_of, dict_get.
  destruct (make_header_map hs !! "Station"%string) as [i|] eqn:Hi; simpl.
  - apply make_header_map_range in Hi as [Hlo _].
    destruct (Z.ltb_spec i (len r)) as [Hlt|Hge].
    + by rewrite getitem_in_range by lia.
    + by rewrite getitem_out_of_range by lia.
  - by rewrite getitem_in_range by lia.
Qed.

Lemma resolve_field_column (r : row) (hs : list string) (name : string)
    (d : Z) :
  resolve_field r (make_header_map hs) name d = Ok (column hs r name).
Proof using Type. unfold resolve_field. by rewrite resolve_field_else_eq. Qed.

(** The body of the station loop in closed form. *)
Lemma station_row_eq (name : string) (hs : list string) (d : odict station)
    (r : row) :
  station_row (state_field_configured name) (make_header_map hs) d r =
  if len r <? 2 then Ok d
  else match station_id_of hs r with
       | None => Raise IndexError
       | Some id =>
           Ok (if negb (truthy id) || od_mem id d then d
               else d ++ [(id, station_of name hs r id)])
       end.
Proof using Type.
  unfold station_row. destruct (Z.ltb_spec (len r) 2) as [?|Hlen]; [done|].
  rewrite resolve_station_id_eq by done.
  destruct (station_id_of hs r) as [id|]; simpl; [|done].
  destruct (truthy id) eqn:Hid; simpl; [|done].
  destruct (od_mem id d) eqn:Hm; simpl; [done|].
  rewrite !resolve_field_column. simpl.
  destruct (Z.ltb_spec 0 (len r)) as [_|?]; [|lia].
  rewrite getitem_last by lia. simpl. by rewrite od_set_fresh.
Qed.

Section FirstWriter.

Context {A V : Type} (key : V -> string) (cand : A -> option V).

Lemma first_item_snoc (items : list A) (x : A) (v : V) :
  first_item key cand items v -> first_item key cand (items ++ [x]) v.
Proof using Type.
  intros (pre & x0 & post & -> & Hc & Hpre).
  exists pre, x0, (post ++ [x]). split_and!; [|done|done].
  by rewrite <- app_assoc.
Qed.

Lemma first_writer_inv_nil : first_writer_inv key cand [] [].
Proof using Type.
  split_and!; [apply keyed_by_nil| |].
  - intros kv H. by apply elem_of_nil in H.
  - intros x v H. by apply elem_of_nil in H.
Qed.

Lemma first_writer_inv_step (items : list A) (d : odict V) (x : A) :
  first_writer_inv key cand items d ->
  first_writer_inv key cand (items ++ [x]) (first_writer_step key cand d x).
Proof using Type.
  intros (Hk & Hfirst & Hall). unfold first_writer_step.
  destruct (cand x) as [v|] eqn:Hv; [destruct (od_mem (key v) d) eqn:Hm|].
  - split_and!; [done| |].
    + intros kv Hin. by apply first_item_snoc, Hfirst.
    + intros x' v' Hin Hc. apply elem_of_app in Hin as [Hin|Hin]; [eauto|].
      apply list_elem_of_singleton in Hin as ->.
      rewrite Hv in Hc. injection Hc as <-. by apply od_mem_true.
  - split_and!.
    + by apply keyed_by_snoc.
    + intros kv Hin. apply elem_of_app in Hin as [Hin|Hin].
      * by apply first_item_snoc, Hfirst.
      * apply list_elem_of_singleton in Hin as ->. simpl.
        exists items, x, []. split_and!; [done|done|].
        intros x' v' Hin' Hc' Heq. apply od_mem_false in Hm. apply Hm.
        rewrite <- Heq. eauto.
    + intros x' v' Hin Hc. unfold od_keys. rewrite map_app.
      apply elem_of_app. apply elem_of_app in Hin as [Hin|Hin].
      * left. eapply Hall; eauto.
      * apply list_elem_of_singleton in Hin as ->.
        rewrite Hv in Hc. injection Hc as <-. right. simpl. by left.
  - split_and!; [done| |].
    + intros kv Hin. by apply first_item_snoc, Hfirst.
    + intros x' v' Hin Hc. apply elem_of_app in Hin as [Hin|Hin]; [eauto|].
      apply list_elem_of_singleton in Hin as ->. congruence.
Qed.

Lemma first_writer_step_extends (d : odict V) (x : A) :
  exists ext, first_writer_step key cand d x = d ++ ext.
Proof using Type.
  unfold first_writer_step. destruct (cand x) as [v|].
  - destruct (od_mem (key v) d); [exists []; by rewrite app_nil_r|by eexists].
  - exists []. by rewrite app_nil_r.
Qed.

End FirstWriter.

Lemma station_row_step (name : string) (hs : list string)
    (d d' : odict station) (r : row) :
  station_row (state_field_configured name) (make_header_map hs) d r = Ok d' ->
  d' = first_writer_step station_id (station_candidate name) d (hs, r).
Proof using Type.
  rewrite station_row_eq. unfold first_writer_step, station_candidate. simpl.
  destruct (len r <? 2); [by intros [= <-]|].
  destruct (station_id_of hs r) as [id|]; [|done].
  intros [= <-]. by destruct (truthy id).
Qed.

Lemma for_each_station_row_inv (name : string) (hs : list string)
    (items0 : list (list string * row)) (rows : list row)
    (d d' : odict station) :
  first_writer_inv station_id (station_candidate name) items0 d ->
  for_each (station_row (state_field_configured name) (make_header_map hs))
    rows d = Ok d' ->
  first_writer_inv station_id (station_candidate name)
    (items0 ++ map (fun r => (hs, r)) rows) d'.
Proof using Type.
  revert items0 d. induction rows as [|r rows IH]; intros items0 d Hinv; simpl.
  - intros [= <-]. by rewrite app_nil_r.
  - destruct (station_row _ _ d r) as [d1|] eqn:H1; simpl; [|done].
    apply station_row_step in H1 as ->. intros Hrest.
    apply (first_writer_inv_step _ _ _ _ (hs, r)) in Hinv.
    apply (IH _ _ Hinv) in Hrest. by rewrite <- app_assoc in Hrest.
Qed.

Lemma station_file_inv (name : string) (items0 : list (list string * row))
    (st st' : odict station * list message) (f : source_file) :
  first_writer_inv station_id (station_candidate name) items0 st.1 ->
  station_file (state_field_configured name) st f = Ok st' ->
  first_writer_inv station_id (station_candidate name)
    (items0 ++ station_items f) st'.1.
Proof using Type.
  intros Hinv. unfold station_file, station_items, header_of.
  pose proof (empty_header_no_rows f) as Hempty. unfold data_rows in *.
  destruct (parse_tab_delimited_file f) as [warnings [headers rows]].
  simpl in *. destruct headers as [|h hs].
  - rewrite Hempty by done. intros [= <-]. simpl. by rewrite app_nil_r.
  - destruct (for_each _ rows st.1) as [d1|] eqn:Hd1; simpl; [|done].
    intros [= <-]. simpl. by eapply for_each_station_row_inv.
Qed.

Lemma for_each_station_file_inv (name : string) (files : list source_file)
    (items0 : list (list string * row))
    (st st' : odict station * list message) :
  first_writer_inv station_id (station_candidate name) items0 st.1 ->
  for_each (station_file (state_field_configured name)) files st = Ok st' ->
  first_writer_inv station_id (station_candidate name)
    (items0 ++ concat (map station_items files)) st'.1.
Proof using Type.
  revert items0 st. induction files as [|f files IH]; intros items0 st Hinv.
  - simpl. intros [= <-]. by rewrite app_nil_r.
  - simpl. destruct (station_file _ st f) as [st1|] eqn:H1; simpl; [|done].
    intros Hrest. apply (station_file_inv _ _ _ _ _ Hinv) in H1.
    apply (IH _ _ H1) in Hrest. by rewrite <- app_assoc in Hrest.
Qed.

(** The station collection after [parse_station_files] on a parser whose
    collection is empty. *)
Lemma parse_station_files_inv (p : parser) (out : list message)
    (p' : parser) (out' : list message) :
  stations p = [] ->
  parse_station_files p out = Ok (p', out') ->
  exists d,
    stations p' = od_values d /\
    first_writer_inv station_id (station_candidate (state_name p))
      (concat (map station_items (glob (data_dir p) (station_pattern p)))) d.
Proof using Type.
  intros Hp. unfold parse_station_files.
  destruct (glob (data_dir p) (station_pattern p)) as [|f files].
  - intros [= <- <-]. exists []. split; [done|]. apply first_writer_inv_nil.
  - destruct (for_each (station_file _) (f :: files) ([], out))
      as [[d o]|] eqn:Hfe; simpl; [|done].
    intros [= <- <-]. exists d. split; [done|].
    exact (for_each_station_file_inv _ _ [] ([], out) (d, o)
             (first_writer_inv_nil _ _) Hfe).
Qed.

(** X6. With a header map built from a header line, processing a station row
    raises exactly when the row has at least two fields and the header has a
    [Station] column at a position the row does not have, and the exception
    is [IndexError]; in particular a row at least as long as the header line
    never raises. *)
Theorem station_row_raises_iff (name : string) (hs : list string)
    (d : odict station) (r : row) :
  (forall e,
     station_row (state_field_configured name) (make_header_map hs) d r
       = Raise e <->
     e = IndexError /\ 2 <= len r /\
     exists i, make_header_map hs !! "Station"%string = Some i /\ len r <= i)
  /\
  (len hs <= len r ->
   exists d',
     station_row (state_field_configured name) (make_header_map hs) d r
       = Ok d').
Proof using Type.
  rewrite station_row_eq. unfold station_id_of. split.
  - intros e. destruct (Z.ltb_spec (len r) 2) as [Hlt|Hge].
    + split; [done|]. intros (_ & ? & _). lia.
    + destruct (make_header_map hs !! "Station"%string) as [i|].
      * destruct (Z.ltb_spec i (len r)) as [Hlt|Hge'].
        -- split; [done|]. intros (_ & _ & i' & [= <-] & ?). lia.
        -- split; [intros [= <-]; eauto|]. by intros (-> & _).
      * split; [done|]. by intros (_ & _ & i' & ? & _).
  - intros Hlen. destruct (len r <? 2); [by eexists|].
    destruct (make_header_map hs !! "Station"%string) as [i|] eqn:Hi;
      [|by eexists].
    apply make_header_map_range in Hi.
    destruct (Z.ltb_spec i (len r)) as [_|?]; [by eexists|lia].
Qed.

(** X7. When station extraction on the parser that [__init__] builds returns,
    the station collection has, for each station id that some processed row
    of at least two fields resolves to (empty ids apart), exactly one record,
    and that record is the one built from the first such row in processing
    order: later rows with the same id change nothing. *)
Theorem stations_first_writer_wins (dir abbr name : string)
    (out : list message) (p' : parser) (out' : list message) :
  let p := init dir abbr name in
  let items :=
    concat (map station_items (glob (data_dir p) (station_pattern p))) in
  parse_station_files p out = Ok (p', out') ->
  NoDup (map station_id (stations p')) /\
  (forall s, s ∈ stations p' ->
             first_item station_id (station_candidate name) items s) /\
  (forall x s, x ∈ items -> station_candidate name x = Some s ->
               station_id s ∈ map station_id (stations p')).
Proof using Type.
  intros p items Hrun.
  destruct (parse_station_files_inv p out p' out' eq_refl Hrun)
    as (d & -> & Hk & Hfirst & Hall).
  split_and!.
  - by apply keyed_by_values.
  - intros s Hs. apply elem_of_map in Hs as (kv & <- & Hin). by apply Hfirst.
  - intros x s Hx Hc. rewrite <- (keyed_by_keys station_id d Hk). eauto.
Qed.

(** X8. When station extraction on the parser that [__init__] builds returns,
    every station of the collection was built from a row of at least two
    fields under the header line of its file, has a station id that is not
    empty and is trimmed, and has the configured state name as its state. *)
Theorem stations_are_well_formed (dir abbr name : string)
    (out : list message) (p' : parser) (out' : list message) :
  parse_station_files (init dir abbr name) out = Ok (p', out') ->
  forall s, s ∈ stations p' ->
    station_id s <> EmptyString /\
    strip (station_id s) = station_id s /\
    state s = name /\
    exists f r,
      f ∈ glob dir
            (station_pattern (init dir abbr name)) /\
      r ∈ data_rows f /\ 2 <= len r /\
      s = station_of name (header_of f) r (station_id s).
Proof using Type.
  intros Hrun s Hs.
  destruct (parse_station_files_inv (init dir abbr name) out p' out'
              eq_refl Hrun) as (d & Hd & _ & Hfirst & _).
  rewrite Hd in Hs. apply elem_of_map in Hs as (kv & <- & Hin).
  destruct (Hfirst _ Hin) as (pre & [hs r] & post & Hitems & Hc & _).
  assert (Hx : (hs, r) ∈ concat (map station_items
                                   (glob dir (station_pattern
                                                (init dir abbr name))))).
  { simpl in Hitems. rewrite Hitems. apply elem_of_app. right. by left. }
  apply list_elem_of_In, in_concat in Hx as (l & Hl & Hx).
  apply list_elem_of_In, elem_of_map in Hl as (f & <- & Hf).
  apply list_elem_of_In, elem_of_map in Hx as (r' & [= <- <-] & Hr).
  unfold station_candidate in Hc. simpl in Hc.
  destruct (Z.ltb_spec (len r') 2) as [?|Hlen]; [done|].
  unfold station_id_of in Hc.
  assert (Hid : forall id, truthy id = true -> strip id = id ->
            Some (station_of name (header_of f) r' id) = Some kv.2 ->
            station_id kv.2 <> EmptyString /\
            strip (station_id kv.2) = station_id kv.2 /\
            state kv.2 = name /\
            kv.2 = station_of name (header_of f) r' (station_id kv.2)).
  { intros id Ht Hs [= <-]. simpl. split_and!; try done.
    intros ->. done. }
  destruct (make_header_map (header_of f) !! "Station"%string) as [i|].
  - destruct (i <? len r'); [|done].
    destruct (truthy (strip _)) eqn:Ht; [|done].
    destruct (Hid _ Ht (strip_idem _) Hc) as (? & ? & ? & ?).
    split_and!; try done. by exists f, r'.
  - destruct (truthy (strip _)) eqn:Ht; [|done].
    destruct (Hid _ Ht (strip_idem _) Hc) as (? & ? & ? & ?).
    split_and!; try done. by exists f, r'.
Qed.

(** * Further properties of the extractors and of the run *)

Lemma with_parameters_same (p : parser) :
  with_parameters p (parameters p) = p.
Proof using Type. by destruct p. Qed.







Lemma path_exists_spec (w : world) (path : string) :
  path_exists w path = true <-> is_Some (files w !! path) \/ path ∈ dirs w.
Proof using Type.
  unfold path_exists. rewrite orb_true_iff, !bool_decide_eq_true. done.
Qed.

Ltac join_ne := let H := fresh in intros H; apply join_inj in H; discriminate H.

(** The world a run leaves, and the parser it returns. *)
Lemma run_cases (p : parser) (output_dir : string) (w : world)
    (p' : parser) (w' : world) :
  run p output_dir w = Ok (p', w') ->
  state_name p' = state_name p /\
  ((path_exists w (join output_dir "parameters.csv")
    && path_exists w (join output_dir "stations.csv")
    && path_exists w (join output_dir "results.csv") = true /\
    p' = p /\
    w' = write_import_script p output_dir None
           (write_sqlite_schema p output_dir
              (print (NoteSkippingParsing output_dir) w)))
   \/
   (path_exists w (join output_dir "parameters.csv")
    && path_exists w (join output_dir "stations.csv")
    && path_exists w (join output_dir "results.csv") = false /\
    exists msgs,
      w' = write_import_script p' output_dir None
             (write_sqlite_schema p' output_dir
                (write_csv_files p' output_dir (print_all msgs w))))).
Proof using Type.
  unfold run.
  destruct (path_exists w _ && path_exists w _ && path_exists w _).
  - intros [= <- <-]. split; [done|]. by left.
  - destruct (parse_inventory_files p []) as [[p1 o1]|] eqn:H1; simpl; [|done].
    destruct (parse_station_files p1 o1) as [[p2 o2]|] eqn:H2; simpl; [|done].
    destruct (parse_result_files p2 o2) as [[p3 o3]|] eqn:H3; simpl; [|done].
    intros [= <- <-].
    apply parse_inventory_files_state_name in H1.
    apply parse_station_files_state_name in H2.
    apply parse_result_files_state_name in H3.
    split; [congruence|]. right. split; [done|]. by exists o3.
Qed.

(** X10. A run that finds at least one of the three delimited files missing
    and completes leaves the five artifacts in the output directory: the
    three delimited files hold the collections of the parser it returns, the
    schema and the load script are those of the state name, the load script
    is executable and the output directory exists; no other file is
    touched. *)
Theorem run_writes_five_artifacts (p : parser) (output_dir : string)
    (w : world) (p' : parser) (w' : world) :
  path_exists w (join output_dir "parameters.csv")
  && path_exists w (join output_dir "stations.csv")
  && path_exists w (join output_dir "results.csv") = false ->
  run p output_dir w = Ok (p', w') ->
  files w' !! join output_dir "parameters.csv" =
    Some (ParametersCsv (parameters p')) /\
  files w' !! join output_dir "stations.csv" =
    Some (StationsCsv (stations p')) /\
  files w' !! join output_dir "results.csv" =
    Some (ResultsCsv (results p')) /\
  files w' !! join output_dir "schema.sql" =
    Some (SchemaSql (state_name p)) /\
  files w' !! join output_dir "import_to_sqlite.sh" =
    Some (ImportScript (state_name p)
            (str_lower (state_name p) +:+ "_water.db")) /\
  join output_dir "import_to_sqlite.sh" ∈ executable w' /\
  output_dir ∈ dirs w' /\
  (forall path,
     path ∉ map (join output_dir)
              ["parameters.csv"; "stations.csv"; "results.csv"; "schema.sql";
               "import_to_sqlite.sh"]%string ->
     files w' !! path = files w !! path).
Proof using Type.
  intros Hmiss Hrun.
  apply run_cases in Hrun as (Hname & [(Hall & _)|(_ & msgs & ->)]);
    [rewrite Hmiss in Hall; discriminate Hall|].
  rewrite <- Hname. simpl. split_and!.
  - rewrite !lookup_insert_ne by join_ne. by rewrite lookup_insert_eq.
  - rewrite !lookup_insert_ne by join_ne. by rewrite lookup_insert_eq.
  - rewrite !lookup_insert_ne by join_ne. by rewrite lookup_insert_eq.
  - rewrite !lookup_insert_ne by join_ne. by rewrite lookup_insert_eq.
  - by rewrite lookup_insert_eq.
  - apply elem_of_union. left. by apply elem_of_singleton.
  - apply elem_of_union. left. by apply elem_of_singleton.
  - intros path Hpath.
    rewrite !lookup_insert_ne; [done|..]; intros <-; apply Hpath;
      repeat first [apply list_elem_of_here|apply list_elem_of_further].
Qed.

Lemma union_singleton_mem (x : string) (X : gset string) :
  x ∈ X -> {[x]} ∪ X = X.
Proof using Type. intros Hx. apply subseteq_union_1_L. by apply singleton_subseteq_l. Qed.

Lemma run_leaves_output (p : parser) (output_dir : string) (w : world)
    (p' : parser) (w' : world) :
  run p output_dir w = Ok (p', w') ->
  path_exists w' (join output_dir "parameters.csv") = true /\
  path_exists w' (join output_dir "stations.csv") = true /\
  path_exists w' (join output_dir "results.csv") = true /\
  output_dir ∈ dirs w' /\
  join output_dir "import_to_sqlite.sh" ∈ executable w'.
Proof using Type.
  intros Hrun.
  apply run_cases in Hrun as (_ & [(Hall & _ & ->)|(_ & msgs & ->)]).
  - apply andb_true_iff in Hall as [Hall H3].
    apply andb_true_iff in Hall as [H1 H2].
    rewrite path_exists_spec in H1, H2, H3.
    rewrite !path_exists_spec. simpl.
    rewrite !lookup_insert_ne by join_ne.
    assert (Hin : forall x, x ∈ dirs w ->
              x ∈ ({[output_dir]} ∪ ({[output_dir]} ∪ dirs w) : gset string))
      by (intros x Hx; do 2 (apply elem_of_union; right); done).
    split_and!.
    + destruct H1; [by left|right; by apply Hin].
    + destruct H2; [by left|right; by apply Hin].
    + destruct H3; [by left|right; by apply Hin].
    + apply elem_of_union. left. by apply elem_of_singleton.
    + apply elem_of_union. left. by apply elem_of_singleton.
  - rewrite !path_exists_spec. simpl.
    split_and!; [left|left|left| |].
    + rewrite !lookup_insert_ne by join_ne. by rewrite lookup_insert_eq.
    + rewrite !lookup_insert_ne by join_ne. by rewrite lookup_insert_eq.
    + rewrite !lookup_insert_ne by join_ne. by rewrite lookup_insert_eq.
    + apply elem_of_union. left. by apply elem_of_singleton.
    + apply elem_of_union. left. by apply elem_of_singleton.
Qed.

(** X11. After a completed run, running again on the parser it returned
    completes through the skip branch, returns that parser unchanged, and
    leaves the files, the directories and the executable marks exactly as
    they are. *)
Theorem run_again_changes_nothing (p : parser) (output_dir : string)
    (w : world) (p1 : parser) (w1 : world) :
  run p output_dir w = Ok (p1, w1) ->
  path_exists w1 (join output_dir "parameters.csv")
  && path_exists w1 (join output_dir "stations.csv")
  && path_exists w1 (join output_dir "results.csv") = true /\
  exists w2,
    run p1 output_dir w1 = Ok (p1, w2) /\
    files w2 = files w1 /\ dirs w2 = dirs w1 /\
    executable w2 = executable w1.
Proof using Type.
  intros Hrun.
  destruct (run_scripts _ _ _ _ _ Hrun) as [Hschema Himport].
  destruct (run_leaves_output _ _ _ _ _ Hrun) as (H1 & H2 & H3 & Hd & Hx).
  apply run_cases in Hrun as (Hname & _).
  split; [by rewrite H1, H2, H3|].
  unfold run. rewrite H1, H2, H3. simpl. eexists. split; [done|]. simpl.
  rewrite Hname. split_and!;
    [|by rewrite !(union_singleton_mem _ _ Hd)
     |by rewrite (union_singleton_mem _ _ Hx)].
  rewrite (insert_id (files w1) _ _ Hschema). by apply insert_id.
Qed.

Lemma reader_warnings (f : source_file) :
  (parse_tab_delimited_file f).1 = read_warnings f.
Proof using Type.
  rewrite reader_cases. unfold read_warnings.
  by destruct (sf_read f) as [e|[|line0 [|line1 rest]]].
Qed.

Lemma result_row_closed (hs : list string) (rs : list measurement) (r : row) :
  result_row (make_header_map hs) rs r =
  Ok (rs ++ if len r <? 10 then [] else [measurement_of hs r]).
Proof using Type.
  unfold result_row. destruct (len r <? 10); [by rewrite app_nil_r|].
  rewrite !resolve_field_column. done.
Qed.

Lemma for_each_result_row_closed (hs : list string) (rows : list row)
    (rs : list measurement) :
  for_each (result_row (make_header_map hs)) rows rs =
  Ok (rs ++ map (measurement_of hs) (filter (fun r => 10 <= len r) rows)).
Proof using Type.
  revert rs. induction rows as [|r rows IH]; intros rs; simpl.
  - by rewrite app_nil_r.
  - rewrite result_row_closed. simpl. rewrite IH, filter_cons.
    destruct (Z.ltb_spec (len r) 10).
    + rewrite decide_False by lia. by rewrite app_nil_r.
    + rewrite decide_True by lia. by rewrite <- app_assoc.
Qed.

Lemma result_file_closed (st : list measurement * list message)
    (f : source_file) :
  result_file st f = Ok (st.1 ++ measurements_of f, st.2 ++ read_warnings f).
Proof using Type.
  unfold result_file, measurements_of, header_of.
  rewrite <- reader_warnings.
  pose proof (empty_header_no_rows f) as Hempty. unfold data_rows in *.
  destruct (parse_tab_delimited_file f) as [warnings [headers rows]].
  simpl in *. destruct headers as [|h hs].
  - rewrite Hempty by done. simpl. by rewrite app_nil_r.
  - by rewrite for_each_result_row_closed.
Qed.

Lemma for_each_result_file_closed (files : list source_file)
    (st : list measurement * list message) :
  for_each result_file files st =
  Ok (st.1 ++ concat (map measurements_of files),
      st.2 ++ concat (map read_warnings files)).
Proof using Type.
  revert st. induction files as [|f files IH]; intros [rs out]; simpl.
  - by rewrite !app_nil_r.
  - rewrite result_file_closed. simpl. rewrite IH. simpl.
    by rewrite <- !app_assoc.
Qed.

Lemma with_results_same (p : parser) : with_results p (results p) = p.
Proof using Type. by destruct p. Qed.

(** X12. Result extraction in closed form. It always completes; it keeps the
    results the parser already holds, in their order, and appends, file by
    file and row by row, one record for each data row of at least ten fields,
    whose fields are the values of the named columns under the header line of
    the file; it prints one warning for each file that cannot be read, in
    the order of the files. Results therefore accumulate: extracting again
    appends the same records a second time. *)
Theorem result_extraction_closed_form (p : parser) (out : list message) :
  let files := glob (data_dir p) (result_pattern p) in
  let new := concat (map measurements_of files) in
  parse_result_files p out =
    Ok (with_results p (results p ++ new),
        out ++ concat (map read_warnings files)) /\
  forall out2,
    parse_result_files (with_results p (results p ++ new)) out2 =
    Ok (with_results p (results p ++ new ++ new),
        out2 ++ concat (map read_warnings files)).
Proof using Type.
  intros files new.
  assert (H : forall q o,
            data_dir q = data_dir p -> state_abbr q = state_abbr p ->
            parse_result_files q o =
            Ok (with_results q (results q ++ new),
                o ++ concat (map read_warnings files))).
  { intros q o Hd Ha. unfold parse_result_files, result_pattern.
    rewrite Hd, Ha. fold (result_pattern p). fold files. subst new.
    destruct files as [|f fs] eqn:Hfiles.
    - simpl. by rewrite !app_nil_r, with_results_same.
    - by rewrite for_each_result_file_closed. }
  split.
  - by apply H.
  - intros out2. rewrite H by done. simpl.
    unfold with_results. simpl. by rewrite <- app_assoc.
Qed.

Lemma for_each_inventory_row_total (rows : list row) (d : odict parameter) :
  exists d', for_each inventory_row rows d = Ok d'.
Proof using Type.
  revert d. induction rows as [|r rows IH]; intros d; simpl; [by eexists|].
  rewrite inventory_row_eq. simpl. apply IH.
Qed.

Lemma inventory_file_uniform (p : parser) (d : odict parameter)
    (f : source_file) :
  exists d', forall out,
    inventory_file p (d, out) f = Ok (d', out ++ inventory_warnings p f).
Proof using Type.
  unfold inventory_file, inventory_warnings, has_county_name.
  rewrite <- reader_warnings.
  destruct (extract_county_name p (sf_name f)) as [county_name|];
    [|exists d; intros out; by rewrite app_nil_r].
  destruct (truthy county_name); simpl;
    [|exists d; intros out; by rewrite app_nil_r].
  destruct (parse_tab_delimited_file f) as [warnings [headers rows]].
  simpl. destruct headers as [|h hs]; [by exists d|].
  destruct (for_each_inventory_row_total rows d) as (d' & Hd').
  exists d'. intros out. by rewrite Hd'.
Qed.

Lemma for_each_inventory_file_uniform (p : parser) (files : list source_file)
    (d : odict parameter) :
  exists d', forall out,
    for_each (inventory_file p) files (d, out) =
    Ok (d', out ++ concat (map (inventory_warnings p) files)).
Proof using Type.
  revert d. induction files as [|f files IH]; intros d; simpl.
  - exists d. intros out. by rewrite app_nil_r.
  - destruct (inventory_file_uniform p d f) as (d1 & H1).
    destruct (IH d1) as (d' & H'). exists d'. intros out.
    rewrite H1. simpl. rewrite H'. by rewrite <- app_assoc.
Qed.

(** X13. Parameter extraction prints one warning for each file that it reads
    and cannot read, in the order of the files, and rebuilds the parameter
    collection from the files alone: extracting again on the parser it
    returned gives that same parser again. *)
Theorem parameter_extraction_rebuilds (p : parser) (out : list message)
    (p1 : parser) (out1 : list message) :
  let files := glob (data_dir p) (state_abbr p +:+ "_*_inv.txt") in
  parse_inventory_files p out = Ok (p1, out1) ->
  out1 = out ++ concat (map (inventory_warnings p) files) /\
  forall out2,
    parse_inventory_files p1 out2 =
    Ok (p1, out2 ++ concat (map (inventory_warnings p) files)).
Proof using Type.
  intros files. subst files. unfold parse_inventory_files.
  destruct (glob (data_dir p) (state_abbr p +:+ "_*_inv.txt"))
    as [|f fs] eqn:Hfiles.
  - intros [= <- <-]. simpl. rewrite app_nil_r. split; [done|].
    intros out2. rewrite Hfiles. by rewrite app_nil_r.
  - destruct (for_each_inventory_file_uniform p (f :: fs) []) as (d' & Hd').
    set (W := concat (map (inventory_warnings p) (f :: fs))) in *.
    assert (Hk : forall (q : parser) (o : list message)
                   (r : result (odict parameter * list message)),
              r = Ok (d', o ++ W) ->
              (st ← r; Ok (with_parameters q (od_values st.1), st.2)) =
              Ok (with_parameters q (od_values d'), o ++ W))
      by (by intros q o r ->).
    intros Hrun.
    pose proof (eq_trans (eq_sym Hrun) (Hk p out _ (Hd' out))) as Heq.
    injection Heq as -> ->. split; [done|]. intros out2.
    change (data_dir (with_parameters p (od_values d'))) with (data_dir p).
    change (state_abbr (with_parameters p (od_values d')))
      with (state_abbr p).
    rewrite Hfiles.
    exact (Hk (with_parameters p (od_values d')) out2 _ (Hd' out2)).
Qed.

Lemma station_file_uniform
    (state_field : row -> gmap string Z -> result string)
    (d d' : odict station) (out out' : list message) (f : source_file) :
  station_file state_field (d, out) f = Ok (d', out') ->
  forall out2,
    station_file state_field (d, out2) f = Ok (d', out2 ++ read_warnings f).
Proof using Type.
  unfold station_file. rewrite <- reader_warnings.
  destruct (parse_tab_delimited_file f) as [warnings [headers rows]].
  simpl. destruct headers as [|h hs]; [by intros [= <- <-]|].
  destruct (for_each _ rows d) as [d1|]; simpl; [|done].
  by intros [= <- <-].
Qed.

Lemma for_each_station_file_uniform
    (state_field : row -> gmap string Z -> result string)
    (files : list source_file) (d d' : odict station)
    (out out' : list message) :
  for_each (station_file state_field) files (d, out) = Ok (d', out') ->
  forall out2,
    for_each (station_file state_field) files (d, out2) =
    Ok (d', out2 ++ concat (map read_warnings files)).
Proof using Type.
  revert d out. induction files as [|f files IH]; intros d out; simpl.
  - intros [= <- <-] out2. by rewrite app_nil_r.
  - destruct (station_file state_field (d, out) f) as [[d1 o1]|] eqn:H1;
      simpl; [|done].
    intros Hrest out2. rewrite (station_file_uniform _ _ _ _ _ _ H1 out2).
    simpl. rewrite (IH _ _ Hrest). by rewrite <- app_assoc.
Qed.

(** X14. When station extraction returns, it has printed one warning for
    each station file that cannot be read, in the order of the files, and it
    has rebuilt the station collection from the files alone: extracting again
    on the parser it returned gives that same parser again. *)
Theorem station_extraction_rebuilds (p : parser) (out : list message)
    (p1 : parser) (out1 : list message) :
  let files := glob (data_dir p) (station_pattern p) in
  parse_station_files p out = Ok (p1, out1) ->
  out1 = out ++ concat (map read_warnings files) /\
  forall out2,
    parse_station_files p1 out2 =
    Ok (p1, out2 ++ concat (map read_warnings files)).
Proof using Type.
  intros files. subst files. unfold parse_station_files.
  destruct (glob (data_dir p) (station_pattern p)) as [|f fs] eqn:Hfiles.
  - intros [= <- <-]. simpl. rewrite app_nil_r. split; [done|].
    intros out2. rewrite Hfiles. by rewrite app_nil_r.
  - destruct (for_each (station_file _) (f :: fs) ([], out))
      as [[d' o']|] eqn:Hfe; simpl; [|done].
    intros [= <- <-].
    pose proof (for_each_station_file_uniform _ _ _ _ _ _ Hfe) as Hu.
    pose proof (eq_trans (eq_sym Hfe) (Hu out)) as Heq.
    injection Heq as Heq. split; [done|]. intros out2.
    change (data_dir (with_stations p (od_values d'))) with (data_dir p).
    change (station_pattern (with_stations p (od_values d')))
      with (station_pattern p).
    change (state_name (with_stations p (od_values d')))
      with (state_name p).
    rewrite Hfiles.
    assert (Hk : forall r : result (odict station * list message),
              r = Ok (d', out2 ++ concat (map read_warnings (f :: fs))) ->
              (st ← r;
               Ok (with_stations (with_stations p (od_values d'))
                     (od_values st.1), st.2)) =
              Ok (with_stations p (od_values d'),
                  out2 ++ concat (map read_warnings (f :: fs))))
      by (by intros r ->).
    exact (Hk _ (Hu out2)).
Qed.


(** * [WashingtonDataParser] *)

Lemma wa_reader_readable (f : source_file) (lines : list string) :
  sf_read f = Lines lines ->
  wa_parse_tab_delimited_file f = WaOk (header_of f, data_rows f) /\
  read_warnings f = [].
Proof using Type.
  intros Hf. unfold wa_parse_tab_delimited_file, header_of, data_rows,
    parse_tab_delimited_file, read_warnings. rewrite Hf.
  destruct (len lines <? 2); [done|]. by destruct lines.
Qed.

Lemma wa_result_file_readable (rs : list measurement) (f : source_file)
    (lines : list string) :
  sf_read f = Lines lines ->
  wa_result_file rs f = WaOk (rs ++ measurements_of f).
Proof using Type.
  intros Hf. unfold wa_result_file.
  destruct (wa_reader_readable f lines Hf) as [-> _]. simpl.
  unfold measurements_of.
  pose proof (empty_header_no_rows f) as Hempty. fold (header_of f) in Hempty.
  destruct (header_of f) as [|h hs].
  - rewrite Hempty by done. simpl. by rewrite app_nil_r.
  - by rewrite for_each_result_row_closed.
Qed.

Lemma wa_for_each_result_file_readable (files : list source_file)
    (rs : list measurement) :
  all_readable files ->
  wa_for_each wa_result_file files rs =
  WaOk (rs ++ concat (map measurements_of files)).
Proof using Type.
  revert rs. induction files as [|f files IH]; intros rs Hall; simpl.
  - by rewrite app_nil_r.
  - destruct (Hall f) as (lines & Hf); [by left|].
    rewrite (wa_result_file_readable rs f lines Hf). simpl.
    rewrite IH; [by rewrite <- app_assoc|].
    intros f' Hf'. apply Hall. by right.
Qed.

(** X16. In [WashingtonDataParser], a result file that cannot be read aborts
    result extraction with the error of [open], once the files before it
    have been read; when all result files can be read, extraction completes
    and appends one record for each data row of at least ten fields, in the
    order of the files and of the rows. *)
Theorem washington_result_extraction (p : parser) :
  let files := glob (data_dir p) "WA_*/WA_*_res_*.txt" in
  (forall pre f post e,
     files = pre ++ f :: post -> all_readable pre ->
     sf_read f = Unreadable e ->
     wa_parse_result_files p = WaRaise (WaOSError e)) /\
  (all_readable files ->
   wa_parse_result_files p =
   WaOk (with_results p (results p ++ concat (map measurements_of files)))).
Proof using Type.
  intros files. unfold wa_parse_result_files. fold files. split.
  - intros pre f post e -> Hpre Hf.
    assert (H : forall rs, wa_for_each wa_result_file (pre ++ f :: post) rs
                           = WaRaise (WaOSError e)).
    { induction pre as [|f0 pre IH]; intros rs; simpl.
      - unfold wa_result_file, wa_parse_tab_delimited_file. by rewrite Hf.
      - destruct (Hpre f0) as (lines & Hf0); [by left|].
        rewrite (wa_result_file_readable rs f0 lines Hf0). simpl.
        apply IH. intros f' Hf'. apply Hpre. by right. }
    by rewrite H.
  - intros Hall. by rewrite wa_for_each_result_file_readable.
Qed.

Lemma reader_readable_eq (f : source_file) (lines : list string) :
  sf_read f = Lines lines ->
  parse_tab_delimited_file f = ([], (header_of f, data_rows f)).
Proof using Type.
  intros Hf. destruct (wa_reader_readable f lines Hf) as [_ Hw].
  rewrite <- reader_warnings in Hw. unfold header_of, data_rows.
  destruct (parse_tab_delimited_file f) as [w [h r]]. simpl in *. by subst.
Qed.

Lemma concat_read_warnings_readable (files : list source_file) :
  all_readable files -> concat (map read_warnings files) = [].
Proof using Type.
  induction files as [|f files IH]; intros Hall; simpl; [done|].
  destruct (Hall f) as (lines & Hf); [by left|].
  destruct (wa_reader_readable f lines Hf) as [_ ->]. simpl.
  apply IH. intros f' Hf'. apply Hall. by right.
Qed.

Lemma inventory_files_agree (p : parser) (files : list source_file)
    (d : odict parameter) (out : list message) :
  state_abbr p = "WA"%string ->
  all_readable files ->
  (forall f, f ∈ files ->
     re_match_cs_group1 "WA_(.+?)_inv\.txt" (sf_name f) =
     re_match_group1 "WA_(.+?)_inv\.txt" (sf_name f)) ->
  exists d',
    wa_for_each wa_inventory_file files d = WaOk d' /\
    for_each (inventory_file p) files (d, out) = Ok (d', out).
Proof using Type.
  intros Habbr. revert d.
  induction files as [|f files IH]; intros d Hall Hre; simpl; [by eexists|].
  assert (Hf : exists d1,
            wa_inventory_file d f = WaOk d1 /\
            inventory_file p (d, out) f = Ok (d1, out)).
  { unfold wa_inventory_file, inventory_file, wa_extract_county_name,
      extract_county_name.
    rewrite Habbr.
    change ("WA" +:+ "_(.+?)_inv\.txt") with "WA_(.+?)_inv\.txt"%string.
    rewrite (Hre f) by (by left).
    destruct (re_match_group1 "WA_(.+?)_inv\.txt" (sf_name f)) as [g|];
      [|by exists d].
    destruct (truthy (replace_char "_" " " g)); simpl; [|by exists d].
    destruct (Hall f) as (lines & Hlines); [by left|].
    destruct (wa_reader_readable f lines Hlines) as [-> _].
    rewrite (reader_readable_eq f lines Hlines). simpl.
    rewrite app_nil_r.
    destruct (header_of f) as [|h hs]; [by exists d|].
    destruct (for_each_inventory_row_total (data_rows f) d) as (d1 & ->).
    by exists d1. }
  destruct Hf as (d1 & -> & ->). simpl. apply IH.
  - intros f' Hf'. apply Hall. by right.
  - intros f' Hf'. apply Hre. by right.
Qed.

(** X17. On an archive of Washington whose inventory and result files can all
    be read, and whose inventory file names the two patterns read alike, the
    two parsers agree: from a parser with an empty parameter collection,
    [WashingtonDataParser] and [StateDataParser] with the abbreviation [WA]
    both complete parameter extraction and return the same parser, and both
    complete result extraction and return the same parser. *)
Theorem parsers_agree_on_readable_archive (p : parser) (out : list message) :
  state_abbr p = "WA"%string ->
  parameters p = [] ->
  all_readable (glob (data_dir p) "WA_*_inv.txt") ->
  all_readable (glob (data_dir p) "WA_*/WA_*_res_*.txt") ->
  (forall f, f ∈ glob (data_dir p) "WA_*_inv.txt" ->
     re_match_cs_group1 "WA_(.+?)_inv\.txt" (sf_name f) =
     re_match_group1 "WA_(.+?)_inv\.txt" (sf_name f)) ->
  exists p1 p2 out1 out2,
    wa_parse_inventory_files p = WaOk p1 /\
    parse_inventory_files p out = Ok (p1, out1) /\
    wa_parse_result_files p = WaOk p2 /\
    parse_result_files p out = Ok (p2, out2).
Proof using Type.
  intros Habbr Hps Hinv Hres Hre.
  destruct (inventory_files_agree p _ [] out Habbr Hinv Hre)
    as (d' & Hwa & Hst).
  exists (with_parameters p (od_values d')),
    (with_results p (results p ++ concat (map measurements_of
       (glob (data_dir p) "WA_*/WA_*_res_*.txt")))), out, out.
  split_and!.
  - unfold wa_parse_inventory_files. by rewrite Hwa.
  - unfold parse_inventory_files. rewrite Habbr.
    change ("WA" +:+ "_*_inv.txt") with "WA_*_inv.txt"%string.
    destruct (glob (data_dir p) "WA_*_inv.txt") as [|f fs] eqn:Hg.
    + simpl in Hwa. injection Hwa as <-. simpl.
      by rewrite <- Hps, with_parameters_same.
    + assert (Hk : forall r : result (odict parameter * list message),
                r = Ok (d', out) ->
                (st ← r; Ok (with_parameters p (od_values st.1), st.2)) =
                Ok (with_parameters p (od_values d'), out))
        by (by intros r ->).
      exact (Hk _ Hst).
  - unfold wa_parse_result_files.
    by rewrite wa_for_each_result_file_readable.
  - unfold parse_result_files, result_pattern. rewrite Habbr.
    change ("WA" +:+ "_*/" +:+ "WA" +:+ "_*_res_*.txt")
      with "WA_*/WA_*_res_*.txt"%string.
    destruct (glob (data_dir p) "WA_*/WA_*_res_*.txt") as [|f fs] eqn:Hg.
    + simpl. by rewrite app_nil_r, with_results_same.
    + assert (Hk : forall r : result (list measurement * list message),
                r = Ok (results p ++ concat (map measurements_of (f :: fs)),
                        out) ->
                (st ← r; Ok (with_results p st.1, st.2)) =
                Ok (with_results p
                      (results p ++ concat (map measurements_of (f :: fs))),
                    out))
        by (by intros r ->).
      apply Hk. rewrite for_each_result_file_closed. simpl fst. simpl snd.
      rewrite (concat_read_warnings_readable (f :: fs)) by done.
      by rewrite app_nil_r.
Qed.

(** * Field counts and the header of inventory files *)

Lemma split_length (sep : ascii) (s : string) :
  length (split sep s) = S (count_char sep s).
Proof using Type.
  induction s as [|c s IH]; simpl; [done|].
  destruct (Ascii.eqb c sep); simpl; [by rewrite IH|].
  destruct (split sep s) as [|x l]; simpl in *; [done|lia].
Qed.

(** X3. The reader keeps empty fields: the header has one name more than
    the first line has tabs, and the data rows are, in order, the non-blank
    lines from the third onward, each with one field more than the line has
    tabs, so that an empty column never shifts the positions of the columns
    after it. *)
Theorem reader_keeps_empty_fields (f : source_file) (line0 line1 : string)
    (rest : list string) :
  sf_read f = Lines (line0 :: line1 :: rest) ->
  length (header_of f) = S (count_char TAB line0) /\
  Forall2 (fun line r => length r = S (count_char TAB line))
    (filter (fun line => truthy (strip line)) rest) (data_rows f).
Proof using Type.
  intros Hf. unfold header_of, data_rows. rewrite reader_cases, Hf. simpl.
  split; [by rewrite length_map, split_length|].
  induction (filter (fun line => truthy (strip line)) rest) as [|l ls IH];
    simpl; constructor; [|done].
  by rewrite length_map, split_length.
Qed.

(** X18. Parameter extraction is positional: it never looks at the names of
    the header line. Replacing the first two lines of an inventory file of at
    least two lines by any others leaves the processing of the file
    unchanged. *)
Theorem inventory_file_ignores_header (p : parser)
    (st : odict parameter * list message) (f : source_file)
    (line0 line1 : string) :
  (exists lines, sf_read f = Lines lines /\ (2 <= length lines)%nat) ->
  inventory_file p st (with_first_lines f line0 line1) = inventory_file p st f.
Proof using Type.
  intros (lines & Hf & Hlen). unfold inventory_file. simpl.
  destruct (extract_county_name p (sf_name f)) as [county_name|]; [|done].
  destruct (truthy county_name); simpl; [|done].
  rewrite !reader_cases. simpl. rewrite Hf.
  destruct lines as [|l0 [|l1 rest]]; simpl in Hlen; try lia. simpl.
  destruct (map strip (split TAB line0)) as [|h hs] eqn:H0;
    [apply map_eq_nil in H0; by apply split_not_nil in H0|].
  destruct (map strip (split TAB l0)) as [|h' hs'] eqn:H0';
    [apply map_eq_nil in H0'; by apply split_not_nil in H0'|].
  done.
Qed.

End Parser.

(** * The properties on a sample archive *)

(** The sample inventory file has the two rows of the scenario and a row of
    two fields: one parameter comes out of it. *)
Example sample_parameters :
  parse_inventory_files sample_re_match_group1 sample_glob sample_parser [] =
  Ok (with_parameters sample_parser
        [{| code := "00010"; short_name := "Temp";
            long_name := "Water Temperature" |}], []).
Proof. by vm_compute. Qed.

(** The sample result file has a row of fourteen fields and a row of nine:
    one result comes out of it, with [Param] and [Start Date] resolved and no
    sample depth. *)
Example sample_results :
  parse_result_files sample_glob sample_parser [] =
  Ok (with_results sample_parser
        [{| r_agency := "21WA"; r_station_id := "S1";
            r_param_code := "00010"; r_start_date := "1990-05-01";
            r_start_time := "0930"; r_result_value := "7.5";
            r_huc := "17110012"; r_sample_depth := EmptyString |}], []).
Proof. by vm_compute. Qed.


Lemma short_inventory_row_is_skipped_witness :
  (length ["00300"; "DO"]%string < 3)%nat /\
  inventory_row [] ["00300"; "DO"]%string = Ok [].
Proof.
  split; [simpl; lia|].
  apply short_inventory_row_is_skipped. simpl. lia.
Defined.

Lemma natural_keys_stay_unique_witness :
  unique_keys sample_parser /\
  exists p' out',
    parse_inventory_files sample_re_match_group1 sample_glob sample_parser []
      = Ok (p', out') /\
    unique_keys p'.
Proof.
  assert (Hu : unique_keys sample_parser) by (split; simpl; constructor).
  split; [exact Hu|].
  exact (proj1 (natural_keys_stay_unique sample_re_match_group1 sample_glob
                  sample_parser [] Hu)).
Defined.

Lemma kept_station_state_witness :
  exists d',
    station_row (state_field_configured "Washington")
      (make_header_map sample_station_headers) [] sample_station_row = Ok d' /\
    (d' = [] \/
     exists s, d' = [] ++ [(station_id s, s)] /\
               state s = "Washington"%string).
Proof.
  eexists. split; [vm_compute; reflexivity|].
  apply (proj1 (kept_station_state "Washington" sample_station_headers []
                  sample_station_row)).
  vm_compute. reflexivity.
Defined.

Lemma rerun_keeps_delimited_files_witness :
  exists w',
    run sample_str sample_re_match_group1 sample_glob sample_parser "output"
      exported_world = Ok (sample_parser, w') /\
    files w' !! "output/parameters.csv"%string =
      Some (Text "code,short_name,long_name / BOGUS,injected,row") /\
    files w' !! "output/schema.sql"%string = Some (SchemaSql "Washington").
Proof.
  destruct (rerun_keeps_delimited_files sample_str sample_re_match_group1
              sample_glob sample_parser "output" exported_world)
    as (w' & Hrun & _ & _ & Hparams & _ & _ & Hscripts);
    [vm_compute; reflexivity ..|].
  exists w'. split; [exact Hrun|]. split.
  - transitivity (files exported_world !! join "output" "parameters.csv");
      [exact Hparams|vm_compute; reflexivity].
  - destruct (run_scripts _ _ _ _ _ _ _ _ Hrun) as [Hschema _]. exact Hschema.
Defined.

Lemma missing_input_directory_is_fatal_witness :
  (exists w',
     main sample_str sample_str sample_str sample_re_match_group1 sample_glob
       sample_args empty_world = (Exit 1, w') /\
     stdout w' = [ErrDataDirNotFound "data/Washington"] /\
     files w' = ∅) /\
  forall status,
    (main sample_str sample_str sample_str sample_re_match_group1 sample_glob
       sample_args exported_world).1 <> Exit status.
Proof.
  split.
  - destruct (proj1 (missing_input_directory_is_fatal sample_str sample_str
                       sample_str sample_re_match_group1 sample_glob
                       sample_args empty_world))
      as (w' & Hmain & _ & Hout & Hfiles & _); [vm_compute; reflexivity|].
    exists w'. split; [exact Hmain|]. split; [exact Hout|exact Hfiles].
  - apply (proj2 (missing_input_directory_is_fatal sample_str sample_str
                    sample_str sample_re_match_group1 sample_glob
                    sample_args exported_world)).
    vm_compute. reflexivity.
Defined.

(** * The further properties on the sample archive *)


Lemma sample_files_readable (files : list source_file) :
  Forall (fun f => match sf_read f with Lines _ => True | _ => False end)
    files ->
  all_readable files.
Proof.
  intros H f Hf. rewrite Forall_forall in H. specialize (H f Hf).
  destruct (sf_read f) as [e|lines]; [done|by exists lines].
Qed.

Lemma reader_rows_are_not_blank_witness :
  ["00010"; "Temp"; "Water Temperature"]%string
    ∈ data_rows sample_inventory_file /\
  exists x, x ∈ ["00010"; "Temp"; "Water Temperature"]%string /\
            x <> EmptyString.
Proof.
  assert (H : ["00010"; "Temp"; "Water Temperature"]%string
                ∈ data_rows sample_inventory_file)
    by (vm_compute; apply list_elem_of_here).
  split; [exact H|].
  exact (proj2 (proj1 (reader_rows_are_not_blank sample_inventory_file) _ H)).
Defined.

Lemma header_map_last_occurrence_witness :
  sample_station_headers !! 4%nat = Some "State Name"%string /\
  make_header_map sample_station_headers !! "State Name"%string = Some 4.
Proof.
  split; [reflexivity|].
  apply (proj1 (header_map_last_occurrence sample_station_headers
                  "State Name") 4).
  split_and!; [lia|reflexivity|apply not_elem_of_nil].
Defined.

Lemma resolve_field_by_header_witness :
  sample_station_headers !! 4%nat = Some "State Name"%string /\
  resolve_field sample_station_row (make_header_map sample_station_headers)
    "State Name" 4 = Ok "Oregon"%string.
Proof.
  split; [reflexivity|].
  apply (proj2 (resolve_field_by_header sample_station_row
                  sample_station_headers "State Name" 4) 4%nat);
    [reflexivity|apply not_elem_of_nil].
Defined.

Lemma station_row_raises_iff_witness :
  station_row (state_field_configured "Washington")
    (make_header_map
       ["Agency"; "Station Name"; "County Name"; "Station"]%string)
    [] ["21WA"; "S1"]%string = Raise IndexError.
Proof.
  apply (proj1 (station_row_raises_iff "Washington"
                  ["Agency"; "Station Name"; "County Name"; "Station"]%string
                  [] ["21WA"; "S1"]%string) IndexError).
  split_and!; [reflexivity|unfold len; simpl; lia|].
  exists 3. split; [vm_compute; reflexivity|unfold len; simpl; lia].
Defined.

Lemma stations_first_writer_wins_witness :
  match parse_station_files sample_glob_stations
          (init sample_str "data/Washington" "WA" "Washington") [] with
  | Ok (p', _) =>
      NoDup (map station_id (stations p')) /\
      map station_name (stations p') = ["Mill Creek"; "Crab Creek"]%string
  | Raise _ => False
  end.
Proof.
  destruct (parse_station_files sample_glob_stations
              (init sample_str "data/Washington" "WA" "Washington") [])
    as [[p' out']|e] eqn:H; [|vm_compute in H; discriminate H].
  split.
  - exact (proj1 (stations_first_writer_wins sample_str sample_glob_stations
                    _ _ _ _ _ _ H)).
  - vm_compute in H. injection H as <- _. reflexivity.
Defined.

Lemma stations_are_well_formed_witness :
  match parse_station_files sample_glob_stations
          (init sample_str "data/Washington" "WA" "Washington") [] with
  | Ok (p', _) =>
      forall s, s ∈ stations p' ->
        station_id s <> EmptyString /\ state s = "Washington"%string
  | Raise _ => False
  end.
Proof.
  destruct (parse_station_files sample_glob_stations
              (init sample_str "data/Washington" "WA" "Washington") [])
    as [[p' out']|e] eqn:H; [|vm_compute in H; discriminate H].
  intros s Hs.
  destruct (stations_are_well_formed sample_str sample_glob_stations
              _ _ _ _ _ _ H s Hs) as (Hid & _ & Hstate & _).
  split; [exact Hid|exact Hstate].
Defined.


Lemma run_writes_five_artifacts_witness :
  match run sample_str sample_re_match_group1 sample_glob_stations
          sample_parser "output" input_world with
  | Ok (p', w') =>
      files w' !! "output/stations.csv"%string =
        Some (StationsCsv (stations p')) /\
      length (stations p') = 2%nat
  | Raise _ => False
  end.
Proof.
  destruct (run sample_str sample_re_match_group1 sample_glob_stations
              sample_parser "output" input_world)
    as [[p' w']|e] eqn:H; [|vm_compute in H; discriminate H].
  split.
  - refine (proj1 (proj2 (run_writes_five_artifacts sample_str
                            sample_re_match_group1 sample_glob_stations
                            sample_parser "output" input_world p' w' _ H))).
    vm_compute. reflexivity.
  - vm_compute in H. injection H as <- _. reflexivity.
Defined.

Lemma run_again_changes_nothing_witness :
  match run sample_str sample_re_match_group1 sample_glob_stations
          sample_parser "output" input_world with
  | Ok (p1, w1) =>
      exists w2,
        run sample_str sample_re_match_group1 sample_glob_stations p1
          "output" w1 = Ok (p1, w2) /\
        files w2 = files w1
  | Raise _ => False
  end.
Proof.
  destruct (run sample_str sample_re_match_group1 sample_glob_stations
              sample_parser "output" input_world)
    as [[p1 w1]|e] eqn:H; [|vm_compute in H; discriminate H].
  destruct (run_again_changes_nothing _ _ _ _ _ _ _ _ H)
    as (_ & w2 & Hrun & Hfiles & _).
  exists w2. split; [exact Hrun|exact Hfiles].
Defined.

Lemma parameter_extraction_rebuilds_witness :
  match parse_inventory_files sample_re_match_group1 sample_glob
          sample_parser [] with
  | Ok (p1, out1) =>
      out1 = [] /\
      parse_inventory_files sample_re_match_group1 sample_glob p1 [] =
      Ok (p1, [])
  | Raise _ => False
  end.
Proof.
  destruct (parse_inventory_files sample_re_match_group1 sample_glob
              sample_parser []) as [[p1 out1]|e] eqn:H;
    [|vm_compute in H; discriminate H].
  destruct (parameter_extraction_rebuilds _ _ _ _ _ _ H) as [Hout Hagain].
  split; [exact Hout|exact (Hagain [])].
Defined.

Lemma station_extraction_rebuilds_witness :
  match parse_station_files sample_glob_stations sample_parser [] with
  | Ok (p1, out1) =>
      out1 = [] /\
      parse_station_files sample_glob_stations p1 [] = Ok (p1, [])
  | Raise _ => False
  end.
Proof.
  destruct (parse_station_files sample_glob_stations sample_parser [])
    as [[p1 out1]|e] eqn:H; [|vm_compute in H; discriminate H].
  destruct (station_extraction_rebuilds _ _ _ _ _ H) as [Hout Hagain].
  split; [exact Hout|exact (Hagain [])].
Defined.


Lemma washington_result_extraction_witness :
  wa_parse_result_files sample_glob_unreadable sample_parser =
    WaRaise (WaOSError "Permission denied") /\
  exists p', wa_parse_result_files sample_glob sample_parser = WaOk p' /\
             length (results p') = 1%nat.
Proof.
  split.
  - apply (proj1 (washington_result_extraction sample_glob_unreadable
                    sample_parser) [sample_result_file]
             sample_unreadable_file [] "Permission denied");
      [reflexivity| |reflexivity].
    apply sample_files_readable. by repeat constructor.
  - eexists. split.
    + apply (proj2 (washington_result_extraction sample_glob sample_parser)).
      apply sample_files_readable. by repeat constructor.
    + reflexivity.
Defined.

Lemma parsers_agree_on_readable_archive_witness :
  exists p1 p2 out1 out2,
    wa_parse_inventory_files sample_glob sample_re_match_group1 sample_parser
      = WaOk p1 /\
    parse_inventory_files sample_re_match_group1 sample_glob sample_parser []
      = Ok (p1, out1) /\
    wa_parse_result_files sample_glob sample_parser = WaOk p2 /\
    parse_result_files sample_glob sample_parser [] = Ok (p2, out2).
Proof.
  apply (parsers_agree_on_readable_archive sample_re_match_group1 sample_glob
           sample_re_match_group1 sample_parser []);
    [reflexivity|reflexivity| | |reflexivity];
    apply sample_files_readable; by repeat constructor.
Defined.

Lemma reader_keeps_empty_fields_witness :
  length (header_of sample_station_file) = 6%nat /\
  Forall (fun r => length r = 6%nat \/ length r = 1%nat)
    (data_rows sample_station_file).
Proof.
  destruct (reader_keeps_empty_fields sample_station_file _ _ _ eq_refl)
    as [Hh _].
  split; [exact Hh|]. vm_compute.
  repeat (constructor; [first [by left|by right]|]). constructor.
Defined.

Lemma inventory_file_ignores_header_witness :
  inventory_file sample_re_match_group1 sample_parser ([], [])
    (with_first_lines sample_inventory_file "x" "y") =
  inventory_file sample_re_match_group1 sample_parser ([], [])
    sample_inventory_file.
Proof.
  apply inventory_file_ignores_header.
  eexists. split; [reflexivity|]. simpl. lia.
Defined.

(** C9 (evaluation at the failing input). The invocation of the usage text in
    a world where the input directory [data/Washington] exists and holds no
    subdirectory [Washington]: [main] looks for [data/Washington/Washington],
    does not find it and exits with status 1, although the input directory is
    present. (["Washington".capitalize()] is ["Washington"].) *)
Theorem main_exits_although_input_directory_exists :
  arg_data_dir documented_usage_args = "data/Washington"%string /\
  path_exists input_world "data/Washington" = true /\
  path_exists input_world "data/Washington/Washington" = false /\
  main sample_str sample_str sample_str sample_re_match_group1 sample_glob
    documented_usage_args input_world =
  (Exit 1,
   print (ErrDataDirNotFound "data/Washington/Washington") input_world).
Proof. by vm_compute. Qed.
